(** * Upload orchestration and table projection of ai-app-components

    A shallow embedding of the script blocks of
    [src/components/S3DragDropUpload.vue] and [src/components/UploadsTable.vue]
    together with the interfaces of [src/types/index.ts].

    Conventions of the embedding.
    - A JavaScript number that holds a byte count, a percentage, an HTTP
      status or an instant in milliseconds is a [Z]; a quotient of two of
      them is an exact [Q].  Dividing an integer below 2^53 by a power of
      two is exact in double precision, so the megabyte figures below are
      the numbers the program computes.
    - A string is a [string]; the host's [toLowerCase], [localeCompare],
      and its rendering of dates and of non-integral numbers are taken as
      section variables, since they are primitives of the runtime and not
      code of the repository.
    - An object that the program mutates in place is the state of a small
      state-and-exception monad; what the program emits or sends is
      appended to a trace, each notification carrying the state of the
      record at the moment it is emitted. *)

From Stdlib Require Import ZArith QArith String Ascii List Lia Permutation.
From Stdlib Require Import DecimalString Sorted.
From stdpp Require Import base list.
Import ListNotations.

Local Open Scope string_scope.
Local Open Scope Z_scope.

(** ** Types of [src/types/index.ts] *)

Inductive Status := Pending | Uploading | Completed | Error.

Definition Status_eqb (a b : Status) : bool :=
  match a, b with
  | Pending, Pending | Uploading, Uploading
  | Completed, Completed | Error, Error => true
  | _, _ => false
  end.

(** The string literal behind each status. *)
Definition Status_string (s : Status) : string :=
  match s with
  | Pending => "pending"
  | Uploading => "uploading"
  | Completed => "completed"
  | Error => "error"
  end.

(** The part of a DOM [File] that the components read. *)
Module File.
Record t := mk { name : string; size : Z; type : string }.
End File.

Module UploadFile.
Record t := mk {
  id : string;
  name : string;
  size : Z;
  type : string;
  uploadedAt : Z;
  s3Key : option string;
  status : Status;
  progress : option Z;
  error : option string
}.

Definition set_status (v : Status) (u : t) : t :=
  mk (id u) (name u) (size u) (type u) (uploadedAt u) (s3Key u) v
     (progress u) (error u).
Definition set_progress (v : option Z) (u : t) : t :=
  mk (id u) (name u) (size u) (type u) (uploadedAt u) (s3Key u) (status u)
     v (error u).
Definition set_s3Key (v : option string) (u : t) : t :=
  mk (id u) (name u) (size u) (type u) (uploadedAt u) v (status u)
     (progress u) (error u).
Definition set_error (v : option string) (u : t) : t :=
  mk (id u) (name u) (size u) (type u) (uploadedAt u) (s3Key u) (status u)
     (progress u) v.
End UploadFile.

Module S3UploadConfig.
Record t := mk {
  presignedUrlEndpoint : string;
  bucket : option string;
  maxFileSize : option Z;
  allowedTypes : option (list string)
}.
End S3UploadConfig.

Module TableColumn.
Record t := mk {
  key : string;
  label : string;
  sortable : option bool;
  filterable : option bool;
  width : option string
}.
End TableColumn.

(** ** Numbers as text *)

(** [String(n)] for an integral number (below 10^21 in magnitude, where
    JavaScript prints all the digits). *)
Definition Z_toString (n : Z) : string :=
  NilZero.string_of_int (Z.to_int n).

(** Truthiness of an optional number: absent and zero are both falsy. *)
Definition truthy (n : option Z) : bool :=
  match n with
  | Some v => negb (v =? 0)
  | None => false
  end.

(** [x.toFixed(1)]: the integer [n] for which [n / 10 - x] is closest to
    zero (the larger one on a tie), printed with a point before its last
    digit; a negative [x] is printed as a minus sign and its opposite. *)
Definition toFixed1_abs (x : Q) : string :=
  let n := (20 * Qnum x + Zpos (Qden x)) / (2 * Zpos (Qden x)) in
  Z_toString (n / 10) ++ "." ++ Z_toString (n mod 10).

Definition toFixed1 (x : Q) : string :=
  if Qnum x <? 0 then "-" ++ toFixed1_abs (Qopp x) else toFixed1_abs x.

Section NumberRendering.

(** The host's [Number::toString] on a number with a fractional part
    (shortest digits that read back as the same double). *)
Variable fractionToString : Q -> string.

(** Interpolation of a number in a template literal. *)
Definition Number_toString (x : Q) : string :=
  if Qnum x mod Zpos (Qden x) =? 0
  then Z_toString (Qnum x / Zpos (Qden x))
  else fractionToString x.

End NumberRendering.

(** [Math.round]: the nearest integer, a tie going up.  The argument is
    the exact quotient; the double the program rounds can lie on the other
    side of a half when the quotient is not a dyadic number (29 / 200
    gives 14 where the exact value 14.5 gives 15).  The statements below
    use that rounding is monotone, which holds of both, and evaluate it
    on dyadic quotients only. *)
Definition Math_round (x : Q) : Z :=
  (2 * Qnum x + Zpos (Qden x)) / (2 * Zpos (Qden x)).

(** Truthiness of [string | null]: [null] and the empty string are falsy. *)
Definition truthy_string (s : option string) : bool :=
  match s with
  | Some (String _ _) => true
  | _ => false
  end.

(** [String(v)] for [string | undefined]. *)
Definition String_or_undefined (v : option string) : string :=
  match v with
  | Some s => s
  | None => "undefined"
  end.

(** [Array.prototype.includes] on an array of strings. *)
Definition Array_includes (xs : list string) (x : string) : bool :=
  existsb (String.eqb x) xs.

(** ** The world outside the component *)

(** What the component does that can be seen from outside: the
    notifications it emits and the requests it sends.  A notification
    about one record carries [ref], the position of that object in the
    batch, and the fields of the object at the moment of the [emit]. *)
Inductive Action :=
| FilesSelected (files : list UploadFile.t)
| UploadStart (ref : nat) (file : UploadFile.t)
| UploadProgress (ref : nat) (file : UploadFile.t)
| UploadComplete (ref : nat) (file : UploadFile.t)
| UploadError (ref : nat) (file : UploadFile.t) (message : string)
| FetchPost (endpoint fileName fileType : string) (fileSize : Z)
| XhrPut (url contentType : string) (body : File.t).

(** A computation either returns or throws an [Error] with a message. *)
Inductive Outcome (A : Type) :=
| Returned (a : A)
| Thrown (message : string).
Arguments Returned {A} a.
Arguments Thrown {A} message.

(** The answer of the presigned-URL endpoint: whether the status is 2xx,
    and what [json()] gives: the [uploadUrl] and [key] properties of the
    body (absent ones are [undefined]), or a rejection when the body is
    not JSON or not an object that can be destructured. *)
Record Response := {
  ok : bool;
  json : Outcome (option string * option string)
}.

Inductive FetchResult :=
| FetchRejects (message : string)
| FetchResolves (response : Response).

(** One [progress] event of [xhr.upload]. *)
Record ProgressEvent := {
  lengthComputable : bool;
  loaded : Z;
  total : Z
}.

(** How the request ends: [load] with an HTTP status, or [error].  The
    component never aborts a request and sets no timeout, so these are
    the two events that can end it. *)
Inductive TransferEnd :=
| Load (status : Z)
| NetworkError.

(** The PUT request: either preparing it throws inside the promise
    executor ([open] on a URL that does not parse), or it is sent, reports
    progress and ends. *)
Inductive Transfer :=
| SetupThrows (message : string)
| Runs (events : list ProgressEvent) (finish : TransferEnd).

(** What the network does for one upload. *)
Record Exchange := {
  presign : FetchResult;
  transfer : Transfer
}.

(** What the runtime supplies to one call of [handleFiles]: for the
    record at position [i], the text of [Math.random().toString(36)], the
    instant of [new Date()], and the behaviour of the network. *)
Record Env := {
  random36 : nat -> string;
  now : nat -> Z;
  exchange : nat -> Exchange
}.

(** ** A monad for [async] functions that mutate one record

    The state is the [UploadFile] object the function holds a reference
    to, and the trace so far.  Every [await] of the source is awaited
    before the next statement runs, so sequencing is [bind]. *)
Definition Cell : Type := UploadFile.t * list Action.

Definition Task (A : Type) : Type := Cell -> Outcome A * Cell.

Definition ret {A} (a : A) : Task A := fun c => (Returned a, c).

Definition throw {A} (message : string) : Task A :=
  fun c => (Thrown message, c).

Definition bind {A B} (m : Task A) (k : A -> Task B) : Task B :=
  fun c =>
    match m c with
    | (Returned a, c') => k a c'
    | (Thrown message, c') => (Thrown message, c')
    end.

Definition tryCatch {A} (m : Task A) (handler : string -> Task A) : Task A :=
  fun c =>
    match m c with
    | (Returned a, c') => (Returned a, c')
    | (Thrown message, c') => handler message c'
    end.

(** Assignment to fields of the record. *)
Definition assign (f : UploadFile.t -> UploadFile.t) : Task unit :=
  fun c => (Returned tt, (f (fst c), snd c)).

(** [emit(name, uploadFile, ...)]. *)
Definition emit (a : UploadFile.t -> Action) : Task unit :=
  fun c => (Returned tt, (fst c, (snd c ++ [a (fst c)])%list)).

(** A request leaving the component. *)
Definition send (a : Action) : Task unit :=
  fun c => (Returned tt, (fst c, (snd c ++ [a])%list)).

Declare Scope task_scope.
Delimit Scope task_scope with task.
Notation "x <- m ;; k" := (bind m (fun x => k))
  (at level 100, m at next level, right associativity) : task_scope.
Notation "m ;; k" := (bind m (fun _ => k))
  (at level 100, right associativity) : task_scope.

Fixpoint forEach {A} (xs : list A) (body : A -> Task unit) : Task unit :=
  match xs with
  | [] => ret tt
  | x :: rest => (body x ;; forEach rest body)%task
  end.

(** ** [S3DragDropUpload.vue] *)

Section S3DragDropUpload.

(** [props.config]. *)
Variable config : S3UploadConfig.t.

Variable fractionToString : Q -> string.

Definition maxSizeMB : Q :=
  match S3UploadConfig.maxFileSize config with
  | Some m => if negb (m =? 0) then inject_Z m / inject_Z (1024 * 1024)
              else inject_Z 100
  | None => inject_Z 100
  end.

(** [draw] is the text of [Math.random().toString(36)]; [substring(2, 11)]
    keeps the characters at positions 2 to 10 that exist. *)
Definition generateId (draw : string) : string := substring 2 9 draw.

Definition createUploadFile (draw : string) (clock : Z) (file : File.t)
  : UploadFile.t :=
  {| UploadFile.id := generateId draw;
     UploadFile.name := File.name file;
     UploadFile.size := File.size file;
     UploadFile.type := File.type file;
     UploadFile.uploadedAt := clock;
     UploadFile.s3Key := None;
     UploadFile.status := Pending;
     UploadFile.progress := Some 0;
     UploadFile.error := None |}.

Definition validateFile (file : File.t) : option string :=
  if truthy (S3UploadConfig.maxFileSize config) &&
     match S3UploadConfig.maxFileSize config with
     | Some m => m <? File.size file
     | None => false
     end
  then Some ("File exceeds maximum size of "
             ++ Number_toString fractionToString maxSizeMB ++ "MB")
  else if match S3UploadConfig.allowedTypes config with
          | Some types =>
              negb (length types =? 0)%nat &&
              negb (Array_includes types (File.type file))
          | None => false
          end
  then Some ("File type " ++ File.type file ++ " is not allowed")
  else None.

(** [fetch(endpoint, {method: "POST", ...})]. *)
Definition fetch (file : File.t) (r : FetchResult) : Task Response :=
  (send (FetchPost (S3UploadConfig.presignedUrlEndpoint config)
                   (File.name file) (File.type file) (File.size file)) ;;
   match r with
   | FetchRejects message => throw message
   | FetchResolves response => ret response
   end)%task.

(** [response.json()] followed by the destructuring of the result. *)
Definition readJson (response : Response)
  : Task (option string * option string) :=
  match json response with
  | Returned body => ret body
  | Thrown message => throw message
  end.

(** The listener on [xhr.upload]'s [progress].  An event with a computable
    length has a [total] that is not zero. *)
Definition onProgress (ref : nat) (e : ProgressEvent) : Task unit :=
  if lengthComputable e
  then (assign (UploadFile.set_progress
                  (Some (Math_round
                           ((inject_Z (loaded e) / inject_Z (total e))
                            * inject_Z 100)))) ;;
        emit (UploadProgress ref))%task
  else ret tt.

(** [await new Promise((resolve, reject) => { ... xhr.send(file) })]. *)
Definition xhrPut (ref : nat) (uploadUrl : option string) (file : File.t)
  (t : Transfer) : Task unit :=
  match t with
  | SetupThrows message => throw message
  | Runs events finish =>
      (send (XhrPut (String_or_undefined uploadUrl) (File.type file) file) ;;
       forEach events (onProgress ref) ;;
       match finish with
       | Load st =>
           if (200 <=? st) && (st <? 300)
           then ret tt
           else throw ("Upload failed with status " ++ Z_toString st)
       | NetworkError => throw "Upload failed"
       end)%task
  end.

(** [ref] names the object [uploadFile] in the trace.  Whatever is thrown
    in the [try] block is an [Error] (the one the block throws itself, the
    rejection of [fetch] or of [json()], the one [reject] is called with),
    so that the handler takes the first branch of [instanceof]. *)
Definition uploadToS3 (ref : nat) (file : File.t) (x : Exchange) : Task unit :=
  tryCatch
    (assign (UploadFile.set_status Uploading) ;;
     emit (UploadStart ref) ;;
     presignResponse <- fetch file (presign x) ;;
     (if negb (ok presignResponse)
      then throw "Failed to get presigned URL"
      else ret tt) ;;
     body <- readJson presignResponse ;;
     assign (UploadFile.set_s3Key (snd body)) ;;
     xhrPut ref (fst body) file (transfer x) ;;
     assign (UploadFile.set_status Completed) ;;
     assign (UploadFile.set_progress (Some 100)) ;;
     emit (UploadComplete ref))%task
    (fun message =>
     (assign (UploadFile.set_status Error) ;;
      assign (UploadFile.set_error (Some message)) ;;
      emit (fun u => UploadError ref u message))%task).

(** The array [uploadFiles] of [handleFiles] and the trace. *)
Record World := {
  uploadFiles : list UploadFile.t;
  trace : list Action
}.

(** The body of the first loop of [handleFiles] for the file at
    position [i]. *)
Definition prepare (env : Env) (i : nat) (file : File.t) : UploadFile.t :=
  let uploadFile := createUploadFile (random36 env i) (now env i) file in
  let validationError := validateFile file in
  if truthy_string validationError
  then UploadFile.set_error validationError
         (UploadFile.set_status Error uploadFile)
  else uploadFile.

(** The body of the second loop: [uploadToS3] runs on the object at
    index [i], which is the state of the task; the array holds the same
    object afterwards. *)
Definition uploadAt (env : Env) (files : list File.t) (w : World) (i : nat)
  : World :=
  match uploadFiles w !! i, files !! i with
  | Some uploadFile, Some file =>
      if negb (Status_eqb (UploadFile.status uploadFile) Error)
      then
        let '(_, (uploadFile', trace')) :=
          uploadToS3 i file (exchange env i) (uploadFile, trace w) in
        {| uploadFiles := <[i := uploadFile']> (uploadFiles w);
           trace := trace' |}
      else w
  | _, _ => w
  end.

(** [files] is [None] for [null]. *)
Definition handleFiles (env : Env) (files : option (list File.t)) : World :=
  match files with
  | None => {| uploadFiles := []; trace := [] |}
  | Some fs =>
      if (length fs =? 0)%nat
      then {| uploadFiles := []; trace := [] |}
      else
        let uploadFiles := imap (prepare env) fs in
        fold_left (uploadAt env fs) (seq 0 (length uploadFiles))
          {| uploadFiles := uploadFiles;
             trace := [FilesSelected uploadFiles] |}
  end.

End S3DragDropUpload.

(** ** [UploadsTable.vue] *)

(** [String.prototype.includes]: [search] occurs in [s] at some position. *)
Fixpoint String_includes (s search : string) : bool :=
  String.prefix search s ||
  match s with
  | EmptyString => false
  | String _ rest => String_includes rest search
  end.

(** [Array.prototype.sort] with a comparator.  The language requires the
    sort to be stable and, for a consistent comparator, to return the
    elements in the order of the comparator.  Every such sort returns the
    same array ([Array_sort_determined] below), and this one, insertion
    from the right, an element stopping in front of the first one it does
    not come after, is the embedding of it. *)
Fixpoint insertSorted {A} (compareFn : A -> A -> Z) (x : A) (l : list A)
  : list A :=
  match l with
  | [] => [x]
  | y :: rest =>
      if compareFn x y <=? 0 then x :: l
      else y :: insertSorted compareFn x rest
  end.

Definition Array_sort {A} (compareFn : A -> A -> Z) (l : list A) : list A :=
  fold_right (insertSorted compareFn) [] l.

Definition Array_filter {A} (keep : A -> bool) (l : list A) : list A :=
  List.filter keep l.

Inductive SortDirection := asc | desc.

(** The value of a property of an [UploadFile]. *)
Inductive Value :=
| VUndefined
| VString (s : string)
| VNumber (n : Z)
| VDate (time : Z).

(** [upload[key]]: an optional field that is not set, and a key that is
    not a field, read as [undefined]. *)
Definition getProperty (upload : UploadFile.t) (key : string) : Value :=
  if (key =? "id")%string then VString (UploadFile.id upload)
  else if (key =? "name")%string then VString (UploadFile.name upload)
  else if (key =? "size")%string then VNumber (UploadFile.size upload)
  else if (key =? "type")%string then VString (UploadFile.type upload)
  else if (key =? "uploadedAt")%string
       then VDate (UploadFile.uploadedAt upload)
  else if (key =? "s3Key")%string
       then match UploadFile.s3Key upload with
            | Some k => VString k
            | None => VUndefined
            end
  else if (key =? "status")%string
       then VString (Status_string (UploadFile.status upload))
  else if (key =? "progress")%string
       then match UploadFile.progress upload with
            | Some p => VNumber p
            | None => VUndefined
            end
  else if (key =? "error")%string
       then match UploadFile.error upload with
            | Some e => VString e
            | None => VUndefined
            end
  else VUndefined.

(** [a === b].  Two [Date] objects are equal only when they are the same
    object; the dates of two records are taken to be different objects
    (for one and the same object the comparator below returns 0 on
    either path). *)
Definition strictEquals (a b : Value) : bool :=
  match a, b with
  | VUndefined, VUndefined => true
  | VString x, VString y => (x =? y)%string
  | VNumber x, VNumber y => x =? y
  | _, _ => false
  end.

Record Props := {
  uploads : list UploadFile.t;
  columns : option (list TableColumn.t)
}.

Definition defaultColumns : list TableColumn.t :=
  [ TableColumn.mk "name" "File Name" (Some true) (Some true) None;
    TableColumn.mk "size" "Size" (Some true) None None;
    TableColumn.mk "type" "Type" (Some true) (Some true) None;
    TableColumn.mk "status" "Status" (Some true) (Some true) None;
    TableColumn.mk "uploadedAt" "Uploaded" (Some true) None None ].

Definition tableColumns (props : Props) : list TableColumn.t :=
  match columns props with
  | Some cs => cs
  | None => defaultColumns
  end.

Definition formatSize (bytes : Z) : string :=
  if bytes <? 1024 then Z_toString bytes ++ " B"
  else if bytes <? 1024 * 1024
       then toFixed1 (inject_Z bytes / inject_Z 1024) ++ " KB"
  else toFixed1 (inject_Z bytes / inject_Z (1024 * 1024)) ++ " MB".

Section UploadsTable.

(** Primitives of the host: case folding, collation, and the text of a
    date. *)
Variable toLowerCase : string -> string.
Variable localeCompare : string -> string -> Z.
Variable dateToString : Z -> string.

(** [String(v)]. *)
Definition String_of (v : Value) : string :=
  match v with
  | VUndefined => "undefined"
  | VString s => s
  | VNumber n => Z_toString n
  | VDate t => dateToString t
  end.

(** The predicate given to [filter]. *)
Definition matchesSearch (search : string) (upload : UploadFile.t) : bool :=
  String_includes (toLowerCase (UploadFile.name upload)) search ||
  String_includes (toLowerCase (UploadFile.type upload)) search ||
  String_includes (toLowerCase (Status_string (UploadFile.status upload)))
    search.

(** The comparator given to [sort]. *)
Definition compareUploads (sortKey : string) (sortDirection : SortDirection)
  (a b : UploadFile.t) : Z :=
  let aVal := getProperty a sortKey in
  let bVal := getProperty b sortKey in
  if strictEquals aVal bVal then 0
  else
    let comparison :=
      match aVal, bVal with
      | VDate x, VDate y => x - y
      | VNumber x, VNumber y => x - y
      | _, _ => localeCompare (String_of aVal) (String_of bVal)
      end in
    match sortDirection with
    | asc => comparison
    | desc => - comparison
    end.

(** The computed property, as a function of the props and of the three
    refs it reads. *)
Definition filteredAndSortedUploads (props : Props) (filterText : string)
  (sortKey : string) (sortDirection : SortDirection) : list UploadFile.t :=
  let result := uploads props in
  let result :=
    match filterText with
    | EmptyString => result
    | String _ _ =>
        let search := toLowerCase filterText in
        Array_filter (matchesSearch search) result
    end in
  Array_sort (compareUploads sortKey sortDirection) result.

End UploadsTable.

(** Case folding of the letters A to Z, which is what [toLowerCase] does
    on text in the ASCII range. *)
Fixpoint ascii_toLowerCase (s : string) : string :=
  match s with
  | EmptyString => EmptyString
  | String c rest =>
      let n := nat_of_ascii c in
      String (if ((65 <=? n) && (n <=? 90))%nat
              then ascii_of_nat (n + 32) else c)
             (ascii_toLowerCase rest)
  end.

(** Comparison by character codes: a stand-in for a collation where one
    is needed to run the table on an example. *)
Definition codeCompare (a b : string) : Z :=
  match String.compare a b with
  | Eq => 0
  | Lt => -1
  | Gt => 1
  end.

(** ** Vocabulary of the statements *)

(** [search] occurs in [s]. *)
Definition Contains (s search : string) : Prop :=
  exists before after, s = before ++ search ++ after.

(** [a] stands at some position of [l] and [b] at a later one. *)
Fixpoint Before {A} (a b : A) (l : list A) : Prop :=
  match l with
  | [] => False
  | y :: rest => (y = a /\ In b rest) \/ Before a b rest
  end.

(** The array that [filteredAndSortedUploads] hands to [sort]. *)
Definition filteredUploads (toLowerCase : string -> string) (props : Props)
  (filterText : string) : list UploadFile.t :=
  match filterText with
  | EmptyString => uploads props
  | String _ _ =>
      Array_filter (matchesSearch toLowerCase (toLowerCase filterText))
        (uploads props)
  end.

(** The file is over a limit that is set and not zero. *)
Definition overLimit (config : S3UploadConfig.t) (file : File.t) : Prop :=
  exists m, S3UploadConfig.maxFileSize config = Some m /\ m <> 0 /\
            File.size file > m.

(** The file's type is outside a list of allowed types that is set and
    not empty. *)
Definition typeRefused (config : S3UploadConfig.t) (file : File.t) : Prop :=
  exists types, S3UploadConfig.allowedTypes config = Some types /\
                types <> [] /\ ~ In (File.type file) types.

(** The record after the listener has handled [events], and the
    notifications the listener has emitted on the way. *)
Fixpoint afterProgress (u : UploadFile.t) (events : list ProgressEvent)
  : UploadFile.t :=
  match events with
  | [] => u
  | e :: rest =>
      if lengthComputable e
      then afterProgress
             (UploadFile.set_progress
                (Some (Math_round ((inject_Z (loaded e) / inject_Z (total e))
                                   * inject_Z 100))) u) rest
      else afterProgress u rest
  end.

Fixpoint progressTrace (ref : nat) (u : UploadFile.t)
  (events : list ProgressEvent) : list Action :=
  match events with
  | [] => []
  | e :: rest =>
      if lengthComputable e
      then
        let u' := UploadFile.set_progress
                    (Some (Math_round
                             ((inject_Z (loaded e) / inject_Z (total e))
                              * inject_Z 100))) u in
        UploadProgress ref u' :: progressTrace ref u' rest
      else progressTrace ref u rest
  end.

(** The record a notification carries. *)
Definition snapshot (a : Action) : option UploadFile.t :=
  match a with
  | UploadStart _ u | UploadProgress _ u | UploadComplete _ u
  | UploadError _ u _ => Some u
  | _ => None
  end.

(** The values of [progress] seen while [status] is [Uploading], in the
    order of the trace. *)
Fixpoint uploadingProgress (t : list Action) : list Z :=
  match t with
  | [] => []
  | a :: rest =>
      match snapshot a with
      | Some u =>
          match UploadFile.status u, UploadFile.progress u with
          | Uploading, Some p => p :: uploadingProgress rest
          | _, _ => uploadingProgress rest
          end
      | None => uploadingProgress rest
      end
  end.

Fixpoint nondecreasing (l : list Z) : Prop :=
  match l with
  | a :: (b :: _) as rest => a <= b /\ nondecreasing rest
  | _ => True
  end.



(** The transfer ends in [load] with a 2xx status. *)
Definition transferSucceeds (t : Transfer) : bool :=
  match t with
  | Runs _ (Load st) => (200 <=? st) && (st <? 300)
  | _ => false
  end.

(** The destination request resolves with a 2xx response whose body can
    be read. *)
Definition presignSucceeds (r : FetchResult) : bool :=
  match r with
  | FetchResolves {| ok := true; json := Returned _ |} => true
  | _ => false
  end.





(** The record at position [i] of a batch once its turn in the second
    loop is over, and what that turn adds to the trace: a record in error
    after validation is skipped. *)
Definition uploaded (config : S3UploadConfig.t)
  (fractionToString : Q -> string) (env : Env) (i : nat) (file : File.t)
  : Cell :=
  let u := prepare config fractionToString env i file in
  if negb (Status_eqb (UploadFile.status u) Error)
  then snd (uploadToS3 config i file (exchange env i) (u, []))
  else (u, []).

(** What the first [k] turns of the second loop add to the trace. *)
Definition turns (config : S3UploadConfig.t)
  (fractionToString : Q -> string) (env : Env) (files : list File.t)
  (k : nat) : list Action :=
  concat
    (List.map
       (fun i =>
          match files !! i with
          | Some file => snd (uploaded config fractionToString env i file)
          | None => []
          end)
       (seq 0 k)).

(** The world after the first [k] turns of the second loop. *)
Definition afterTurns (config : S3UploadConfig.t)
  (fractionToString : Q -> string) (env : Env) (files : list File.t)
  (k : nat) : World :=
  {| uploadFiles :=
       imap (fun i file =>
               if (i <? k)%nat
               then fst (uploaded config fractionToString env i file)
               else prepare config fractionToString env i file)
            files;
     trace :=
       FilesSelected (imap (prepare config fractionToString env) files)
       :: turns config fractionToString env files k |}.

(** ** Inputs of the examples *)

Definition noFraction : Q -> string := fun _ => "".

Definition zeroLimitConfig : S3UploadConfig.t :=
  S3UploadConfig.mk "/presign" None (Some 0) None.

Definition tenMegConfig : S3UploadConfig.t :=
  S3UploadConfig.mk "/presign" None (Some (10 * 1024 * 1024))
    (Some ["image/png"]).

Definition openConfig : S3UploadConfig.t :=
  S3UploadConfig.mk "/presign" None None None.

Definition notesFile : File.t := File.mk "notes.txt" 1 "text/plain".

Definition scanFile : File.t :=
  File.mk "scan.png" (50 * 1024 * 1024) "image/png".

Definition iconFile : File.t := File.mk "icon.png" 2048 "image/png".

Definition noDate : Z -> string := fun _ => "".

(** A destination request that succeeds. *)
Definition granted : FetchResult :=
  FetchResolves {| ok := true;
                   json := Returned (Some "https://bucket.example/put",
                                     Some "uploads/icon.png") |}.

Definition halfway : ProgressEvent :=
  {| lengthComputable := true; loaded := 1024; total := 2048 |}.

Definition allSent : ProgressEvent :=
  {| lengthComputable := true; loaded := 2048; total := 2048 |}.


(** The transfer goes through. *)
Definition accepted : Exchange :=
  {| presign := granted; transfer := Runs [halfway; allSent] (Load 200) |}.

(** The whole body is sent and the storage answers 403. *)
Definition refused : Exchange :=
  {| presign := granted; transfer := Runs [halfway; allSent] (Load 403) |}.


Definition freshIcon : UploadFile.t :=
  createUploadFile "0.4fzyo82mvyr" 1000 iconFile.

(** The network of scenario 3: the second transfer fails. *)
Definition secondFails : Env :=
  {| random36 := fun i => "0.4fzyo82mvy" ++ Z_toString (Z.of_nat i);
     now := fun i => 1000 + Z.of_nat i;
     exchange := fun i => if (i =? 1)%nat then refused else accepted |}.

(** The records of scenario 4, and two records of one size. *)
Definition aPng : UploadFile.t :=
  UploadFile.mk "id1" "a.png" 2048 "image/png" 1000 (Some "k1") Completed
    (Some 100) None.

Definition bTxt : UploadFile.t :=
  UploadFile.mk "id2" "b.txt" 2048 "text/plain" 2000 None Pending
    (Some 0) None.

Definition cPng : UploadFile.t :=
  UploadFile.mk "id3" "C.PNG" 512 "image/png" 3000 None Pending
    (Some 0) None.

Definition tableProps : Props :=
  {| uploads := [aPng; bTxt; cPng]; columns := None |}.

(** ** The rest of [UploadsTable.vue] *)

(** [handleSort] assigns to the refs [sortKey] and [sortDirection]; here it
    takes their values and returns the new ones. *)
Definition handleSort (sortKey : string) (sortDirection : SortDirection)
  (key : string) : string * SortDirection :=
  if (sortKey =? key)%string
  then (sortKey, match sortDirection with asc => desc | desc => asc end)
  else (key, asc).

Definition getStatusClass (status : string) : string := "status-" ++ status.

Section CellText.

(** [formatDate], which is [new Date(date).toLocaleString()], and the
    host's [String] of a date. *)
Variable formatDate : Z -> string.
Variable dateToString : Z -> string.


End CellText.

(** ** [MessageTextField.vue] *)

Module MessageTextField.

Record Props := {
  modelValue : option string;
  placeholder : option string;
  disabled : option bool;
  maxLength : option Z;
  loading : option bool
}.

Record KeyboardEvent := {
  key : string;
  shiftKey : bool
}.

(** What a handler does: a call on the event, or an [emit]. *)
Inductive Action :=
| PreventDefault
| EmitUpdate (value : string)
| EmitSubmit (value : string).

(** Truthiness of an optional boolean prop. *)
Definition isTrue (b : option bool) : bool :=
  match b with
  | Some true => true
  | _ => false
  end.

(** The getter of the computed [inputValue]: [props.modelValue || ""]. *)
Definition inputValue (props : Props) : string :=
  match modelValue props with
  | Some v => v
  | None => ""
  end.

Section Handlers.

(** [String.prototype.trim] of the host. *)
Variable trim : string -> string.

Definition handleSubmit (props : Props) : list Action :=
  if truthy_string (Some (trim (inputValue props))) &&
     negb (isTrue (disabled props)) && negb (isTrue (loading props))
  then [EmitSubmit (trim (inputValue props))]
  else [].

Definition handleKeydown (props : Props) (event : KeyboardEvent)
  : list Action :=
  if (key event =? "Enter")%string && negb (shiftKey event)
  then PreventDefault :: handleSubmit props
  else [].

End Handlers.

End MessageTextField.

(** ** More vocabulary *)

(** The other direction. *)
Definition opposite (d : SortDirection) : SortDirection :=
  match d with
  | asc => desc
  | desc => asc
  end.

(** The requests of a trace, in order. *)
Definition isRequest (a : Action) : bool :=
  match a with
  | FetchPost _ _ _ _ | XhrPut _ _ _ => true
  | _ => false
  end.

Definition requests (t : list Action) : list Action :=
  List.filter isRequest t.

(** The destination requests among them. *)
Definition isFetch (a : Action) : bool :=
  match a with
  | FetchPost _ _ _ _ => true
  | _ => false
  end.

(** The record a notification is about. *)
Definition actionRef (a : Action) : option nat :=
  match a with
  | UploadStart ref _ | UploadProgress ref _ | UploadComplete ref _
  | UploadError ref _ _ => Some ref
  | _ => None
  end.



(** The file passes [validateFile]. *)
Definition passes (config : S3UploadConfig.t)
  (fractionToString : Q -> string) (file : File.t) : bool :=
  negb (truthy_string (validateFile config fractionToString file)).

(** The destination request [handleFiles] sends for a file. *)
Definition presignRequest (config : S3UploadConfig.t) (file : File.t)
  : Action :=
  FetchPost (S3UploadConfig.presignedUrlEndpoint config)
    (File.name file) (File.type file) (File.size file).

(** What a record keeps of the file and of its creation. *)
Definition identity (u : UploadFile.t) : string * string * Z * string * Z :=
  (UploadFile.id u, UploadFile.name u, UploadFile.size u, UploadFile.type u,
   UploadFile.uploadedAt u).

(** A transfer that stops at once on a network error, and a destination
    request that is refused. *)
Definition denied : Exchange :=
  {| presign := FetchResolves {| ok := false; json := Thrown "no body" |};
     transfer := Runs [] NetworkError |}.


(** A transfer of which one event has no computable length. *)
Definition chunked : Exchange :=
  {| presign := granted;
     transfer :=
       Runs [halfway;
             {| lengthComputable := false; loaded := 1500; total := 0 |};
             allSent] (Load 200) |}.

(** The exchange without the progress events that the listener skips. *)
Definition computableOnly (x : Exchange) : Exchange :=
  {| presign := presign x;
     transfer :=
       match transfer x with
       | SetupThrows message => SetupThrows message
       | Runs events finish =>
           Runs (List.filter lengthComputable events) finish
       end |}.

(** * Properties *)

(** ** Validation *)

Lemma Status_eqb_eq a b : Status_eqb a b = true <-> a = b.
Proof. destruct a, b; simpl; split; congruence. Qed.

Lemma Array_includes_In xs x : Array_includes xs x = true <-> In x xs.
Proof.
  unfold Array_includes. rewrite existsb_exists. split.
  - intros (y & Hy & Heq). apply String.eqb_eq in Heq. now subst.
  - intros H. exists x. split; [assumption | apply String.eqb_refl].
Qed.

Lemma overLimit_dec config file :
  (if truthy (S3UploadConfig.maxFileSize config) &&
      match S3UploadConfig.maxFileSize config with
      | Some m => m <? File.size file
      | None => false
      end
   then overLimit config file else ~ overLimit config file).
Proof.
  unfold overLimit. destruct (S3UploadConfig.maxFileSize config) as [m|]; simpl.
  - destruct (Z.eqb_spec m 0); simpl.
    + intros (m' & Hm & Hne & _). congruence.
    + destruct (Z.ltb_spec m (File.size file)).
      * exists m. repeat split; [assumption | lia].
      * intros (m' & Hm & _ & Hgt). injection Hm as <-. lia.
  - intros (m' & Hm & _). discriminate.
Qed.

Lemma typeRefused_dec config file :
  (if match S3UploadConfig.allowedTypes config with
      | Some types =>
          negb (length types =? 0)%nat &&
          negb (Array_includes types (File.type file))
      | None => false
      end
   then typeRefused config file else ~ typeRefused config file).
Proof.
  unfold typeRefused.
  destruct (S3UploadConfig.allowedTypes config) as [types|].
  - destruct types as [|t0 types]; simpl negb at 1; cbv iota.
    + simpl. intros (ts & Hts & Hne & _). congruence.
    + rewrite andb_true_l.
      destruct (Array_includes (t0 :: types) (File.type file)) eqn:Hinc; simpl.
      * apply Array_includes_In in Hinc.
        intros (ts & Hts & _ & Hnin). injection Hts as <-. tauto.
      * exists (t0 :: types). repeat split; [discriminate |].
        intros Hin. apply Array_includes_In in Hin. congruence.
  - intros (ts & Hts & _). discriminate.
Qed.

(** C1, as amended.  [validateFile] applies its rules in order and the
    first that matches wins: a file over a limit that is set and not zero
    gets the size message; otherwise a file whose type is outside a set,
    non-empty list of allowed types gets the message naming that type;
    otherwise there is no error. *)
Theorem validateFile_rules config fractionToString file :
  (overLimit config file ->
   validateFile config fractionToString file =
     Some ("File exceeds maximum size of "
           ++ Number_toString fractionToString (maxSizeMB config) ++ "MB"))
  /\ (~ overLimit config file -> typeRefused config file ->
      validateFile config fractionToString file =
        Some ("File type " ++ File.type file ++ " is not allowed"))
  /\ (~ overLimit config file -> ~ typeRefused config file ->
      validateFile config fractionToString file = None).
Proof.
  pose proof (overLimit_dec config file) as Hsize.
  pose proof (typeRefused_dec config file) as Htype.
  unfold validateFile.
  destruct (truthy (S3UploadConfig.maxFileSize config) && _).
  - split; [|split]; intros; [reflexivity | contradiction | contradiction].
  - destruct (match S3UploadConfig.allowedTypes config with
              | Some _ => _ | None => _ end).
    + split; [|split]; intros; [contradiction | reflexivity | contradiction].
    + split; [|split]; intros; [contradiction | contradiction | reflexivity].
Qed.

(** A limit of ten mebibytes, a PNG of fifty: the first rule applies. *)
Lemma validateFile_rules_witness :
  validateFile tenMegConfig noFraction scanFile
  = Some "File exceeds maximum size of 10MB".
Proof.
  apply (proj1 (validateFile_rules tenMegConfig noFraction scanFile)).
  exists 10485760. simpl. repeat split; lia.
Defined.

(** C1 as it is stated fails for a limit that is set to zero: the file is
    larger than the limit and yet passes, because the guard tests the
    limit for truthiness. *)
Lemma validateFile_zero_limit_accepts :
  S3UploadConfig.maxFileSize zeroLimitConfig = Some 0 /\
  File.size notesFile > 0 /\
  validateFile zeroLimitConfig noFraction notesFile = None.
Proof. repeat split; reflexivity. Qed.

(** ** The size message *)

Lemma megabytes_whole fractionToString k :
  Number_toString fractionToString
    (inject_Z (k * 1048576) / inject_Z (1024 * 1024)) = Z_toString k.
Proof.
  unfold Number_toString. simpl Qnum. simpl Qden.
  rewrite Z.mul_1_r.
  change (Z.pos 1048576) with 1048576.
  rewrite Z.mod_mul by lia. simpl.
  rewrite Z.div_mul by lia. reflexivity.
Qed.

(** C7, as amended.  The size message names the limit as the number
    [maxFileSize / 1048576] in the default rendering of a number, without
    a fixed count of decimals: a limit of [k] whole mebibytes is printed
    as the integer [k]. *)
Theorem sizeMessage_names_limit config fractionToString file m :
  S3UploadConfig.maxFileSize config = Some m ->
  m <> 0 ->
  File.size file > m ->
  validateFile config fractionToString file =
    Some ("File exceeds maximum size of "
          ++ Number_toString fractionToString
               (inject_Z m / inject_Z (1024 * 1024))
          ++ "MB")
  /\ (forall k, m = k * 1048576 ->
      Number_toString fractionToString
        (inject_Z m / inject_Z (1024 * 1024)) = Z_toString k).
Proof.
  intros Hm Hne Hgt. split.
  - unfold validateFile, maxSizeMB. rewrite Hm. simpl truthy.
    destruct (Z.eqb_spec m 0) as [|_]; [contradiction|].
    destruct (Z.ltb_spec m (File.size file)); [reflexivity | lia].
  - intros k ->. apply megabytes_whole.
Qed.

Lemma sizeMessage_names_limit_witness :
  validateFile tenMegConfig noFraction scanFile =
    Some ("File exceeds maximum size of "
          ++ Number_toString noFraction
               (inject_Z 10485760 / inject_Z (1024 * 1024))
          ++ "MB")
  /\ (forall k, 10485760 = k * 1048576 ->
      Number_toString noFraction
        (inject_Z 10485760 / inject_Z (1024 * 1024)) = Z_toString k).
Proof.
  apply (sizeMessage_names_limit tenMegConfig noFraction scanFile 10485760).
  - reflexivity.
  - lia.
  - simpl. lia.
Defined.

(** C7 as it is stated fails at a limit of ten mebibytes: one decimal
    place would give 10.0, and the message says 10. *)
Lemma sizeMessage_not_one_decimal :
  validateFile tenMegConfig noFraction scanFile
    = Some "File exceeds maximum size of 10MB"
  /\ toFixed1 (maxSizeMB tenMegConfig) = "10.0"
  /\ validateFile tenMegConfig noFraction scanFile
     <> Some ("File exceeds maximum size of "
              ++ toFixed1 (maxSizeMB tenMegConfig) ++ "MB").
Proof. repeat split; try reflexivity. vm_compute. discriminate. Qed.

(** The table, for its part, prints sizes with one decimal. *)
Example formatSize_examples :
  formatSize 512 = "512 B"
  /\ formatSize 1536 = "1.5 KB"
  /\ formatSize 10485760 = "10.0 MB".
Proof. repeat split. Qed.

(** ** Identifiers *)

Lemma length_substring n m s :
  String.length (substring n m s) = Nat.min m (String.length s - n).
Proof.
  revert n m. induction s as [|c s IH]; intros [|n] [|m]; simpl;
    try reflexivity.
  - rewrite IH. now rewrite Nat.sub_0_r.
  - rewrite IH. reflexivity.
  - rewrite IH. reflexivity.
Qed.

(** C8, as amended.  The id of a new record is made of the characters at
    positions 2 to 10 of the base-36 text of the random number: nine
    characters when the text has that many after its first two, fewer
    otherwise. *)
Theorem createUploadFile_id draw clock file :
  UploadFile.id (createUploadFile draw clock file) = substring 2 9 draw
  /\ String.length (UploadFile.id (createUploadFile draw clock file))
     = Nat.min 9 (String.length draw - 2).
Proof.
  split; [reflexivity|]. simpl. unfold generateId. apply length_substring.
Qed.

(** C8 as it is stated fails when [Math.random()] returns one half, whose
    base-36 text is 0.i: the id has one character, and a second record
    drawn the same way has the same id. *)
Lemma createUploadFile_short_id :
  UploadFile.id (createUploadFile "0.i" 0 notesFile) = "i"
  /\ (String.length (UploadFile.id (createUploadFile "0.i" 0 notesFile)) < 9)%nat
  /\ UploadFile.id (createUploadFile "0.i" 0 notesFile)
     = UploadFile.id (createUploadFile "0.i" 1 iconFile).
Proof. repeat split. simpl. lia. Qed.

(** ** An empty selection *)

(** C10.  For [null] and for an empty [FileList], [handleFiles] creates no
    record and leaves the trace empty: nothing is emitted, not even
    [files-selected], and nothing is sent. *)
Theorem handleFiles_nothing_selected config fractionToString env :
  handleFiles config fractionToString env None
    = {| uploadFiles := []; trace := [] |}
  /\ handleFiles config fractionToString env (Some [])
    = {| uploadFiles := []; trace := [] |}.
Proof. split; reflexivity. Qed.

(** ** One upload *)

Lemma forEach_onProgress ref events : forall u t,
  forEach events (onProgress ref) (u, t)
  = (Returned tt,
     (afterProgress u events, (t ++ progressTrace ref u events)%list)).
Proof.
  induction events as [|e events IH]; intros u t; simpl.
  - unfold ret. now rewrite app_nil_r.
  - unfold bind, onProgress. destruct (lengthComputable e); simpl.
    + rewrite IH. now rewrite <- app_assoc.
    + apply IH.
Qed.

Lemma afterProgress_fields u events :
  UploadFile.id (afterProgress u events) = UploadFile.id u /\
  UploadFile.s3Key (afterProgress u events) = UploadFile.s3Key u /\
  UploadFile.status (afterProgress u events) = UploadFile.status u /\
  UploadFile.error (afterProgress u events) = UploadFile.error u.
Proof.
  revert u. induction events as [|e events IH]; intros u; simpl.
  - auto.
  - destruct (lengthComputable e); [|apply IH].
    destruct (IH (UploadFile.set_progress
                    (Some (Math_round
                             ((inject_Z (loaded e) / inject_Z (total e))
                              * inject_Z 100))) u)) as (H1 & H2 & H3 & H4).
    rewrite H1, H2, H3, H4. auto.
Qed.

(** Symbolic execution of [uploadToS3] once the behaviour of the network
    is known by cases. *)
Ltac run_upload :=
  unfold uploadToS3, tryCatch, bind, fetch, readJson, xhrPut, bind, assign,
    emit, send, ret, throw; simpl;
  try rewrite forEach_onProgress; simpl.

(** [uploadToS3] catches whatever is thrown inside it. *)
Lemma uploadToS3_returns config ref file x c :
  fst (uploadToS3 config ref file x c) = Returned tt.
Proof.
  destruct c as [u t], x as [[message | [[] [body | message]]] tr];
    try (run_upload; reflexivity).
  destruct tr as [message | events [st |]]; run_upload; try reflexivity.
  destruct ((200 <=? st) && (st <? 300)); reflexivity.
Qed.

Lemma status_2xx st : 200 <= st < 300 -> (200 <=? st) && (st <? 300) = true.
Proof.
  intros H. apply andb_true_intro. split; [apply Z.leb_le | apply Z.ltb_lt]; lia.
Qed.

(** C2.  When the destination request succeeds with [uploadUrl] and [key]
    and the transfer ends in a 2xx status, [uploadToS3] leaves the record
    completed, at 100 percent, with [s3Key] the key of the response, and
    the last thing it does is to emit [upload-complete] for that record. *)
Theorem uploadToS3_success config ref file x u t uploadUrl key events st :
  presign x = FetchResolves {| ok := true;
                               json := Returned (Some uploadUrl, Some key) |} ->
  transfer x = Runs events (Load st) ->
  200 <= st < 300 ->
  exists u' t',
    uploadToS3 config ref file x (u, t)
      = (Returned tt, (u', (t ++ t' ++ [UploadComplete ref u'])%list))
    /\ UploadFile.status u' = Completed
    /\ UploadFile.progress u' = Some 100
    /\ UploadFile.s3Key u' = Some key.
Proof.
  intros Hpresign Htransfer Hst. destruct x as [p tr]. simpl in *. subst.
  run_upload. rewrite (status_2xx st Hst). simpl.
  rewrite <- !app_assoc. simpl.
  eexists.
  exists (UploadStart ref (UploadFile.set_status Uploading u)
          :: FetchPost (S3UploadConfig.presignedUrlEndpoint config)
               (File.name file) (File.type file) (File.size file)
          :: XhrPut uploadUrl (File.type file) file
          :: progressTrace ref
               (UploadFile.set_s3Key (Some key)
                  (UploadFile.set_status Uploading u)) events).
  split; [reflexivity|].
  simpl. repeat split.
  apply (afterProgress_fields
           (UploadFile.set_s3Key (Some key)
              (UploadFile.set_status Uploading u)) events).
Qed.

(** C9.  [s3Key] is assigned between the destination request and the
    transfer: when the request succeeds with a key and the transfer then
    fails, by a network error, by a status outside 2xx or by an exception
    while the request is prepared, the record ends in error and still
    carries the key of the response. *)
Theorem uploadToS3_key_survives_failure config ref file x u t uploadUrl key :
  presign x = FetchResolves {| ok := true;
                               json := Returned (uploadUrl, Some key) |} ->
  transferSucceeds (transfer x) = false ->
  exists u' t' message,
    uploadToS3 config ref file x (u, t)
      = (Returned tt, (u', (t ++ t' ++ [UploadError ref u' message])%list))
    /\ UploadFile.status u' = Error
    /\ UploadFile.error u' = Some message
    /\ UploadFile.s3Key u' = Some key.
Proof.
  intros Hpresign Hfails. destruct x as [p tr]. simpl in *. subst.
  pose proof (afterProgress_fields
                (UploadFile.set_s3Key (Some key)
                   (UploadFile.set_status Uploading u))) as Hkeep.
  destruct tr as [message | events [st |]]; simpl in Hfails.
  - run_upload. rewrite <- !app_assoc. simpl.
    eexists.
    exists [UploadStart ref (UploadFile.set_status Uploading u);
            FetchPost (S3UploadConfig.presignedUrlEndpoint config)
              (File.name file) (File.type file) (File.size file)].
    exists message. split; [reflexivity|]. simpl. auto.
  - run_upload. rewrite Hfails. simpl. rewrite <- !app_assoc. simpl.
    eexists.
    exists (UploadStart ref (UploadFile.set_status Uploading u)
            :: FetchPost (S3UploadConfig.presignedUrlEndpoint config)
                 (File.name file) (File.type file) (File.size file)
            :: XhrPut (String_or_undefined uploadUrl) (File.type file) file
            :: progressTrace ref
                 (UploadFile.set_s3Key (Some key)
                    (UploadFile.set_status Uploading u)) events).
    eexists. split; [reflexivity|]. simpl. repeat split. apply Hkeep.
  - run_upload. rewrite <- !app_assoc. simpl.
    eexists.
    exists (UploadStart ref (UploadFile.set_status Uploading u)
            :: FetchPost (S3UploadConfig.presignedUrlEndpoint config)
                 (File.name file) (File.type file) (File.size file)
            :: XhrPut (String_or_undefined uploadUrl) (File.type file) file
            :: progressTrace ref
                 (UploadFile.set_s3Key (Some key)
                    (UploadFile.set_status Uploading u)) events).
    eexists. split; [reflexivity|]. simpl. repeat split. apply Hkeep.
Qed.

(** ** Progress *)





Lemma nondecreasing_cons a l :
  nondecreasing (a :: l) <->
  match l with [] => True | b :: _ => a <= b /\ nondecreasing l end.
Proof. destruct l; simpl; tauto. Qed.



(** ** A batch *)

(** The trace given to [uploadToS3] is only appended to, and the record
    it leaves does not depend on that trace. *)
Lemma uploadToS3_frame config ref file x u t :
  uploadToS3 config ref file x (u, t)
  = (Returned tt,
     (fst (snd (uploadToS3 config ref file x (u, []))),
      (t ++ snd (snd (uploadToS3 config ref file x (u, []))))%list)).
Proof.
  destruct x as [[message | [[] [body | message]]] tr];
    try (run_upload; rewrite <- ?app_assoc; reflexivity).
  destruct tr as [message | events [st |]]; run_upload;
    try (rewrite <- ?app_assoc; reflexivity).
  - rewrite (forEach_onProgress ref events _ [_; _; _]).
    destruct ((200 <=? st) && (st <? 300)); simpl;
      rewrite <- ?app_assoc; reflexivity.
  - rewrite (forEach_onProgress ref events _ [_; _; _]). simpl.
    rewrite <- ?app_assoc. reflexivity.
Qed.





Section Batch.

Variable config : S3UploadConfig.t.
Variable fractionToString : Q -> string.
Variable env : Env.
Variable files : list File.t.

Let prepared := prepare config fractionToString env.
Let finished := uploaded config fractionToString env.

Lemma turns_S k file :
  files !! k = Some file ->
  turns config fractionToString env files (S k)
  = (turns config fractionToString env files k ++ snd (finished k file))%list.
Proof.
  intros Hk. unfold turns. rewrite seq_S, map_app, concat_app. simpl.
  rewrite Hk. now rewrite app_nil_r.
Qed.

(** One turn of the second loop. *)
Lemma uploadAt_turn k file :
  files !! k = Some file ->
  uploadAt config env files
    (afterTurns config fractionToString env files k) k
  = afterTurns config fractionToString env files (S k).
Proof.
  intros Hk. unfold uploadAt, afterTurns. cbn [uploadFiles trace].
  rewrite list_lookup_imap, Hk. cbn [fmap option_fmap option_map].
  rewrite Nat.ltb_irrefl.
  assert (Hrecords : forall r,
    r = fst (finished k file) ->
    <[k := r]>
      (imap (fun i f => if (i <? k)%nat then fst (finished i f) else prepared i f)
            files)
    = imap (fun i f => if (i <? S k)%nat then fst (finished i f)
                       else prepared i f) files).
  { intros r ->. apply list_eq. intros i.
    destruct (Nat.eq_dec i k) as [->|Hne].
    - rewrite list_lookup_insert_eq
        by (rewrite length_imap; apply lookup_lt_is_Some; eauto).
      rewrite list_lookup_imap, Hk. simpl.
      destruct (Nat.ltb_spec k (S k)); [reflexivity | lia].
    - rewrite list_lookup_insert_ne by congruence.
      rewrite !list_lookup_imap. destruct (files !! i); simpl; [|reflexivity].
      destruct (Nat.ltb_spec i k), (Nat.ltb_spec i (S k));
        try reflexivity; lia. }
  rewrite (turns_S k file Hk).
  subst finished prepared. unfold uploaded in *.
  destruct (negb (Status_eqb
                    (UploadFile.status
                       (prepare config fractionToString env k file)) Error)).
  - rewrite uploadToS3_frame. f_equal. apply Hrecords. reflexivity.
  - rewrite app_nil_r. f_equal.
    rewrite <- (Hrecords (prepare config fractionToString env k file))
      by reflexivity.
    symmetry. apply list_insert_id.
    rewrite list_lookup_imap, Hk. simpl. now rewrite Nat.ltb_irrefl.
Qed.

Lemma uploadLoop_turns k :
  (k <= length files)%nat ->
  fold_left (uploadAt config env files) (seq 0 k)
    (afterTurns config fractionToString env files 0)
  = afterTurns config fractionToString env files k.
Proof.
  induction k as [|k IH]; intros Hk; [reflexivity|].
  rewrite seq_S, fold_left_app. simpl. rewrite IH by lia.
  destruct (lookup_lt_is_Some_2 files k) as [file Hfile]; [lia|].
  now apply uploadAt_turn with file.
Qed.

(** [handleFiles] on a selection that is not empty. *)
Lemma handleFiles_turns :
  files <> [] ->
  handleFiles config fractionToString env (Some files)
  = afterTurns config fractionToString env files (length files).
Proof.
  intros Hne. unfold handleFiles.
  destruct files as [|f fs] eqn:Hfs; [congruence|]. rewrite <- Hfs.
  replace (length files =? 0)%nat with false
    by (rewrite Hfs; reflexivity).
  rewrite length_imap. rewrite <- uploadLoop_turns by lia.
  f_equal.
Qed.


Lemma prepare_status i file :
  UploadFile.status (prepare config fractionToString env i file)
  = if truthy_string (validateFile config fractionToString file)
    then Error else Pending.
Proof.
  unfold prepare.
  destruct (truthy_string (validateFile config fractionToString file));
    reflexivity.
Qed.


End Batch.


(** ** The table *)

Lemma string_app_assoc (a b c : string) : (a ++ b) ++ c = a ++ (b ++ c).
Proof. induction a as [|x a IH]; simpl; [reflexivity | now rewrite IH]. Qed.

Lemma prefix_app p s : String.prefix p s = true <-> exists q, s = p ++ q.
Proof.
  revert s. induction p as [|a p IH]; intros s.
  - split; [intros _; now exists s | destruct s; reflexivity].
  - destruct s as [|b s]; simpl.
    + split; [discriminate | intros [q Hq]; discriminate].
    + destruct (ascii_dec a b) as [->|Hne].
      * rewrite IH. split; intros [q Hq]; exists q; congruence.
      * split; [discriminate | intros [q Hq]; congruence].
Qed.

Lemma String_includes_unfold s search :
  String_includes s search
  = String.prefix search s ||
    match s with
    | EmptyString => false
    | String _ rest => String_includes rest search
    end.
Proof. destruct s; reflexivity. Qed.

(** [String_includes] decides [Contains]. *)
Lemma String_includes_Contains s search :
  String_includes s search = true <-> Contains s search.
Proof.
  unfold Contains. split.
  - induction s as [|c s IH]; rewrite String_includes_unfold, orb_true_iff.
    + intros [H | H]; [|discriminate].
      apply prefix_app in H as [q Hq]. now exists "", q.
    + intros [H | H].
      * apply prefix_app in H as [q Hq]. now exists "", q.
      * destruct (IH H) as (b & a & Hba). exists (String c b), a.
        simpl. now rewrite Hba.
  - intros (b & a & Hs). revert s Hs.
    induction b as [|c b IH]; intros s Hs; simpl in Hs.
    + assert (String.prefix search s = true) as Hp
        by (apply prefix_app; now exists a).
      rewrite String_includes_unfold. now rewrite Hp.
    + subst s. rewrite String_includes_unfold.
      rewrite (IH _ eq_refl). apply orb_true_r.
Qed.

Section Sorting.

Context {A : Type}.
Variable compareFn : A -> A -> Z.

Lemma insertSorted_Permutation x l :
  Permutation (insertSorted compareFn x l) (x :: l).
Proof.
  induction l as [|y l IH]; simpl; [reflexivity|].
  destruct (compareFn x y <=? 0); [reflexivity|].
  rewrite IH. apply perm_swap.
Qed.

Lemma Array_sort_Permutation l : Permutation (Array_sort compareFn l) l.
Proof.
  induction l as [|x l IH]; simpl; [reflexivity|].
  rewrite insertSorted_Permutation. now constructor.
Qed.

(** Two elements that were in order stay in order when a third one is
    inserted. *)
Lemma insertSorted_keeps a b x l :
  Before a b l -> Before a b (insertSorted compareFn x l).
Proof.
  induction l as [|y l IH]; simpl; [tauto|].
  intros H. destruct (compareFn x y <=? 0); simpl; [tauto|].
  destruct H as [[-> Hb] | H]; [left | right; auto].
  split; [reflexivity|].
  apply (Permutation_in b (Permutation_sym (insertSorted_Permutation x l))).
  now right.
Qed.

(** The inserted element stops in front of every element that it does
    not come after. *)
Lemma insertSorted_stops x b l :
  In b l -> compareFn x b <= 0 -> Before x b (insertSorted compareFn x l).
Proof.
  induction l as [|y l IH]; simpl; [tauto|].
  intros Hin Hle. destruct (Z.leb_spec (compareFn x y) 0); simpl.
  - left. auto.
  - right. destruct Hin as [-> | Hin]; [lia | auto].
Qed.

Lemma Array_sort_stable a b l :
  compareFn a b <= 0 -> Before a b l -> Before a b (Array_sort compareFn l).
Proof.
  intros Hle. induction l as [|x l IH]; simpl; [tauto|].
  intros [[-> Hb] | H].
  - apply insertSorted_stops; [|assumption].
    now apply (Permutation_in b (Permutation_sym (Array_sort_Permutation l))).
  - apply insertSorted_keeps. auto.
Qed.

(** The same, class by class: when the elements that compare equal to
    [r] compare equal to one another, the sort leaves the sequence of
    those elements as it was. *)
Lemma insertSorted_class r x l :
  (forall a b, compareFn r a = 0 -> compareFn r b = 0 -> compareFn a b <= 0) ->
  List.filter (fun y => compareFn r y =? 0) (insertSorted compareFn x l)
  = List.filter (fun y => compareFn r y =? 0) (x :: l).
Proof.
  intros Hclass. induction l as [|y l IH]; [reflexivity|].
  cbn [insertSorted]. destruct (Z.leb_spec (compareFn x y) 0); [reflexivity|].
  cbn [List.filter] in *. rewrite IH.
  destruct (Z.eqb_spec (compareFn r x) 0), (Z.eqb_spec (compareFn r y) 0);
    try reflexivity.
  pose proof (Hclass x y ltac:(assumption) ltac:(assumption)). lia.
Qed.

Lemma Array_sort_class r l :
  (forall a b, compareFn r a = 0 -> compareFn r b = 0 -> compareFn a b <= 0) ->
  List.filter (fun y => compareFn r y =? 0) (Array_sort compareFn l)
  = List.filter (fun y => compareFn r y =? 0) l.
Proof.
  intros Hclass. induction l as [|x l IH]; [reflexivity|].
  cbn [Array_sort fold_right]. rewrite insertSorted_class by assumption.
  cbn [List.filter]. fold (Array_sort compareFn l). now rewrite IH.
Qed.

(** When of two elements one at least does not come after the other, the
    result is in the order of the comparator. *)
Hypothesis compareFn_total :
  forall a b, compareFn a b > 0 -> compareFn b a <= 0.

Lemma insertSorted_Sorted x l :
  Sorted (fun a b => compareFn a b <= 0) l ->
  Sorted (fun a b => compareFn a b <= 0) (insertSorted compareFn x l).
Proof.
  induction 1 as [|y l Hs IH Hhd]; simpl.
  - repeat constructor.
  - destruct (Z.leb_spec (compareFn x y) 0).
    + repeat constructor; assumption.
    + constructor; [exact IH|].
      destruct Hhd as [|z l Hz]; simpl.
      * constructor. apply compareFn_total. lia.
      * destruct (compareFn x z <=? 0); constructor;
          [apply compareFn_total; lia | assumption].
Qed.

Lemma Array_sort_Sorted l :
  Sorted (fun a b => compareFn a b <= 0) (Array_sort compareFn l).
Proof.
  induction l as [|x l IH]; simpl; [constructor|].
  now apply insertSorted_Sorted.
Qed.

End Sorting.

(** For a consistent comparator the result of a stable sort is
    determined: a list that holds the elements of [l] in the order of the
    comparator, and class by class in the order of [l], is the list
    [Array_sort] returns. *)
Section SortDetermined.

Context {A : Type}.
Variable compareFn : A -> A -> Z.

Hypothesis compareFn_refl : forall a, compareFn a a = 0.
Hypothesis compareFn_sym : forall a b, compareFn a b = 0 -> compareFn b a = 0.
Hypothesis compareFn_total :
  forall a b, compareFn a b > 0 -> compareFn b a <= 0.
Hypothesis compareFn_trans :
  forall a b c, compareFn a b <= 0 -> compareFn b c <= 0 -> compareFn a c <= 0.
Hypothesis compareFn_antisym :
  forall a b, compareFn a b <= 0 -> compareFn b a <= 0 -> compareFn a b = 0.

Lemma compareFn_class r a b :
  compareFn r a = 0 -> compareFn r b = 0 -> compareFn a b <= 0.
Proof.
  intros Ha Hb. apply compareFn_sym in Ha.
  apply compareFn_trans with r; lia.
Qed.

Lemma Array_sort_StronglySorted l :
  StronglySorted (fun a b => compareFn a b <= 0) (Array_sort compareFn l).
Proof.
  apply Sorted_StronglySorted.
  - intros a b c. apply compareFn_trans.
  - now apply Array_sort_Sorted.
Qed.

Lemma sorted_classes_equal l1 : forall l2,
  Permutation l1 l2 ->
  StronglySorted (fun a b => compareFn a b <= 0) l1 ->
  StronglySorted (fun a b => compareFn a b <= 0) l2 ->
  (forall r, List.filter (fun y => compareFn r y =? 0) l1
             = List.filter (fun y => compareFn r y =? 0) l2) ->
  l1 = l2.
Proof.
  induction l1 as [|x l1 IH]; intros l2 Hperm Hs1 Hs2 Hclass.
  - apply Permutation_nil in Hperm. now subst.
  - destruct l2 as [|y l2].
    + apply Permutation_sym, Permutation_nil in Hperm. discriminate.
    + apply StronglySorted_inv in Hs1 as [Hs1 Hx].
      apply StronglySorted_inv in Hs2 as [Hs2 Hy].
      rewrite List.Forall_forall in Hx, Hy.
      assert (Hxy : compareFn x y = 0).
      { assert (In y (x :: l1)) as Hin
          by (apply (Permutation_in y (Permutation_sym Hperm)); now left).
        assert (In x (y :: l2)) as Hin'
          by (apply (Permutation_in x Hperm); now left).
        destruct Hin as [-> | Hin]; [apply compareFn_refl|].
        destruct Hin' as [-> | Hin']; [apply compareFn_refl|].
        apply compareFn_antisym; auto. }
      pose proof (Hclass x) as Hhead. cbn [List.filter] in Hhead.
      rewrite compareFn_refl, Hxy in Hhead. simpl in Hhead.
      injection Hhead as <- _.
      f_equal. apply IH; try assumption.
      * now apply Permutation_cons_inv in Hperm.
      * intros r. specialize (Hclass r). cbn [List.filter] in Hclass.
        destruct (compareFn r x =? 0); [now injection Hclass | assumption].
Qed.

Lemma Array_sort_determined l l' :
  Permutation l l' ->
  StronglySorted (fun a b => compareFn a b <= 0) l' ->
  (forall r, List.filter (fun y => compareFn r y =? 0) l'
             = List.filter (fun y => compareFn r y =? 0) l) ->
  l' = Array_sort compareFn l.
Proof.
  intros Hperm Hsorted Hclass. apply sorted_classes_equal.
  - rewrite <- Hperm. symmetry. apply Array_sort_Permutation.
  - assumption.
  - apply Array_sort_StronglySorted.
  - intros r. rewrite Hclass. symmetry.
    apply Array_sort_class. apply compareFn_class.
Qed.

End SortDetermined.

Lemma Before_split {A} (a b : A) l :
  Before a b l <-> exists l1 l2 l3, l = (l1 ++ a :: l2 ++ b :: l3)%list.
Proof.
  induction l as [|y l IH]; simpl.
  - split; [tauto | intros ([|? ?] & ? & ? & H); discriminate].
  - rewrite IH. split.
    + intros [[-> Hb] | (l1 & l2 & l3 & ->)].
      * apply in_split in Hb as (l2 & l3 & ->). now exists [], l2, l3.
      * now exists (y :: l1), l2, l3.
    + intros ([|z l1] & l2 & l3 & H); simpl in H; injection H as -> ->.
      * left. split; [reflexivity|]. apply in_or_app. right. now left.
      * right. now exists l1, l2, l3.
Qed.

Lemma filteredAndSortedUploads_sort toLowerCase localeCompare dateToString
  props filterText sortKey sortDirection :
  filteredAndSortedUploads toLowerCase localeCompare dateToString props
    filterText sortKey sortDirection
  = Array_sort (compareUploads localeCompare dateToString sortKey sortDirection)
      (filteredUploads toLowerCase props filterText).
Proof. unfold filteredAndSortedUploads, filteredUploads. now destruct filterText. Qed.

Lemma matchesSearch_Contains toLowerCase search u :
  matchesSearch toLowerCase search u = true <->
  Contains (toLowerCase (UploadFile.name u)) search \/
  Contains (toLowerCase (UploadFile.type u)) search \/
  Contains (toLowerCase (Status_string (UploadFile.status u))) search.
Proof.
  unfold matchesSearch. rewrite !orb_true_iff, !String_includes_Contains.
  tauto.
Qed.

(** C4.  The projection holds the records of the input that pass the
    filter, each as many times as the input does: all of them when the
    filter text is empty, and otherwise those whose lower-cased name, type
    or status contains the lower-cased filter text.  The columns and
    their [filterable] flags have no part in it. *)
Theorem filteredAndSortedUploads_keeps toLowerCase localeCompare dateToString
  props filterText sortKey sortDirection :
  Permutation
    (filteredAndSortedUploads toLowerCase localeCompare dateToString props
       filterText sortKey sortDirection)
    (match filterText with
     | EmptyString => uploads props
     | String _ _ =>
         List.filter (matchesSearch toLowerCase (toLowerCase filterText))
           (uploads props)
     end)
  /\ (forall u,
        In u (filteredAndSortedUploads toLowerCase localeCompare dateToString
                props filterText sortKey sortDirection)
        <-> In u (uploads props) /\
            (filterText = "" \/
             Contains (toLowerCase (UploadFile.name u))
               (toLowerCase filterText) \/
             Contains (toLowerCase (UploadFile.type u))
               (toLowerCase filterText) \/
             Contains (toLowerCase (Status_string (UploadFile.status u)))
               (toLowerCase filterText)))
  /\ (forall cols,
        filteredAndSortedUploads toLowerCase localeCompare dateToString
          {| uploads := uploads props; columns := cols |}
          filterText sortKey sortDirection
        = filteredAndSortedUploads toLowerCase localeCompare dateToString
            props filterText sortKey sortDirection).
Proof.
  assert (Hperm :
    Permutation
      (filteredAndSortedUploads toLowerCase localeCompare dateToString props
         filterText sortKey sortDirection)
      (filteredUploads toLowerCase props filterText)).
  { rewrite filteredAndSortedUploads_sort. apply Array_sort_Permutation. }
  split; [exact Hperm|]. split; [|reflexivity].
  intros u. split.
  - intros Hin. apply (Permutation_in u Hperm) in Hin.
    unfold filteredUploads, Array_filter in Hin.
    destruct filterText as [|c rest]; [tauto|].
    apply filter_In in Hin as [Hin Hm].
    apply matchesSearch_Contains in Hm. tauto.
  - intros [Hin Hm].
    apply (Permutation_in u (Permutation_sym Hperm)).
    unfold filteredUploads, Array_filter.
    destruct filterText as [|c rest]; [assumption|].
    apply filter_In. split; [assumption|].
    apply matchesSearch_Contains.
    destruct Hm as [Hm | Hm]; [discriminate | exact Hm].
Qed.

(** Scenario 4 of the specification. *)
Example filter_png :
  filteredAndSortedUploads ascii_toLowerCase codeCompare noDate
    {| uploads := [aPng; bTxt]; columns := None |} "png" "uploadedAt" desc
  = [aPng].
Proof. reflexivity. Qed.

(** C5.  Sorting keeps apart no two records that compare equal: when the
    comparator returns 0 for [a] and [b], and [a] stands in front of [b]
    in the filtered input, [a] stands in front of [b] in the projection,
    whatever the sort key and the direction. *)
Theorem filteredAndSortedUploads_stable toLowerCase localeCompare dateToString
  props filterText sortKey sortDirection a b :
  compareUploads localeCompare dateToString sortKey sortDirection a b = 0 ->
  Before a b (filteredUploads toLowerCase props filterText) ->
  Before a b
    (filteredAndSortedUploads toLowerCase localeCompare dateToString props
       filterText sortKey sortDirection).
Proof.
  intros Heq Hbefore. rewrite filteredAndSortedUploads_sort.
  apply Array_sort_stable; [lia | assumption].
Qed.

(** Two records of 2048 bytes, sorted by size in descending order. *)
Lemma filteredAndSortedUploads_stable_witness :
  Before aPng bTxt
    (filteredAndSortedUploads ascii_toLowerCase codeCompare noDate tableProps
       "" "size" desc).
Proof.
  apply (filteredAndSortedUploads_stable ascii_toLowerCase codeCompare noDate
           tableProps "" "size" desc aPng bTxt).
  - reflexivity.
  - simpl. left. split; [reflexivity | left; reflexivity].
Defined.

Example sort_by_size_desc :
  filteredAndSortedUploads ascii_toLowerCase codeCompare noDate tableProps
    "" "size" desc
  = [aPng; bTxt; cPng]
  /\ filteredAndSortedUploads ascii_toLowerCase codeCompare noDate tableProps
       "" "size" asc
     = [cPng; aPng; bTxt].
Proof. split; reflexivity. Qed.

(** ** The theorems at work *)

Lemma uploadToS3_success_witness :
  exists u' t',
    uploadToS3 openConfig 0 iconFile accepted (freshIcon, [])
      = (Returned tt, (u', ([] ++ t' ++ [UploadComplete 0 u'])%list))
    /\ UploadFile.status u' = Completed
    /\ UploadFile.progress u' = Some 100
    /\ UploadFile.s3Key u' = Some "uploads/icon.png".
Proof.
  apply (uploadToS3_success openConfig 0 iconFile accepted freshIcon []
           "https://bucket.example/put" "uploads/icon.png"
           [halfway; allSent] 200).
  - reflexivity.
  - reflexivity.
  - lia.
Defined.

Lemma uploadToS3_key_survives_failure_witness :
  exists u' t' message,
    uploadToS3 openConfig 0 iconFile refused (freshIcon, [])
      = (Returned tt, (u', ([] ++ t' ++ [UploadError 0 u' message])%list))
    /\ UploadFile.status u' = Error
    /\ UploadFile.error u' = Some message
    /\ UploadFile.s3Key u' = Some "uploads/icon.png".
Proof.
  apply (uploadToS3_key_survives_failure openConfig 0 iconFile refused
           freshIcon [] (Some "https://bucket.example/put")
           "uploads/icon.png").
  - reflexivity.
  - reflexivity.
Defined.



(** Scenario 1 of the specification: a file of fifty mebibytes against a
    limit of ten is recorded in error and nothing is sent. *)
Example too_large_is_not_sent :
  handleFiles tenMegConfig noFraction secondFails (Some [scanFile])
  = {| uploadFiles :=
         [UploadFile.mk "4fzyo82mv" "scan.png" 52428800 "image/png" 1000
            None Error (Some 0)
            (Some "File exceeds maximum size of 10MB")];
       trace :=
         [FilesSelected
            [UploadFile.mk "4fzyo82mv" "scan.png" 52428800 "image/png" 1000
               None Error (Some 0)
               (Some "File exceeds maximum size of 10MB")]] |}.
Proof. reflexivity. Qed.

(** Scenario 3 of the specification: of three files the second fails its
    transfer; the statuses are completed, error, completed, and the third
    upload starts after the error of the second. *)
Example second_of_three_fails :
  List.map UploadFile.status
    (uploadFiles
       (handleFiles openConfig noFraction secondFails
          (Some [iconFile; iconFile; iconFile])))
  = [Completed; Error; Completed]
  /\ List.map
       (fun a =>
          match a with
          | UploadStart ref _ => ("start", ref)
          | UploadComplete ref _ => ("complete", ref)
          | UploadError ref _ _ => ("error", ref)
          | UploadProgress ref _ => ("progress", ref)
          | FilesSelected _ => ("selected", 0%nat)
          | FetchPost _ _ _ _ => ("fetch", 0%nat)
          | XhrPut _ _ _ => ("put", 0%nat)
          end)
       (List.filter
          (fun a =>
             match a with
             | UploadStart _ _ | UploadComplete _ _ | UploadError _ _ _ => true
             | _ => false
             end)
          (trace
             (handleFiles openConfig noFraction secondFails
                (Some [iconFile; iconFile; iconFile]))))
     = [("start", 0%nat); ("complete", 0%nat); ("start", 1%nat);
        ("error", 1%nat); ("start", 2%nat); ("complete", 2%nat)].
Proof. split; reflexivity. Qed.

(** ** Supplements *)

(** On a numeric column the comparator is the difference of the sizes,
    which is a consistent comparator: there the projection is the one
    list in the order of the comparator that a stable sort can return. *)
Lemma compareUploads_size localeCompare dateToString sortDirection a b :
  compareUploads localeCompare dateToString "size" sortDirection a b
  = match sortDirection with
    | asc => UploadFile.size a - UploadFile.size b
    | desc => UploadFile.size b - UploadFile.size a
    end.
Proof.
  unfold compareUploads. simpl.
  destruct (Z.eqb_spec (UploadFile.size a) (UploadFile.size b)) as [Heq|_];
    destruct sortDirection; lia.
Qed.

Lemma sort_by_size_determined toLowerCase localeCompare dateToString props
  filterText sortDirection l' :
  Permutation (filteredUploads toLowerCase props filterText) l' ->
  StronglySorted
    (fun a b =>
       compareUploads localeCompare dateToString "size" sortDirection a b <= 0)
    l' ->
  (forall r,
     List.filter
       (fun y =>
          compareUploads localeCompare dateToString "size" sortDirection r y
          =? 0) l'
     = List.filter
         (fun y =>
            compareUploads localeCompare dateToString "size" sortDirection r y
            =? 0) (filteredUploads toLowerCase props filterText)) ->
  l' = filteredAndSortedUploads toLowerCase localeCompare dateToString props
         filterText "size" sortDirection.
Proof.
  intros Hperm Hsorted Hclass. rewrite filteredAndSortedUploads_sort.
  apply Array_sort_determined; try assumption;
    intros; rewrite ?compareUploads_size in *; destruct sortDirection; lia.
Qed.

(** The upload of a record leaves its id alone, so that the ids of a
    batch are those drawn when the records were created: two records of
    a batch have the same id exactly when their draws agree on the
    characters that [generateId] keeps. *)
Lemma uploadToS3_id config ref file x u t :
  UploadFile.id (fst (snd (uploadToS3 config ref file x (u, t))))
  = UploadFile.id u.
Proof.
  destruct x as [[message | [[] [body | message]]] tr];
    try (run_upload; reflexivity).
  pose proof (afterProgress_fields
                (UploadFile.set_s3Key (snd body)
                   (UploadFile.set_status Uploading u))) as Hkeep.
  destruct tr as [message | events [st |]]; run_upload; try reflexivity.
  - destruct ((200 <=? st) && (st <? 300)); simpl; apply Hkeep.
  - apply Hkeep.
Qed.

Lemma handleFiles_ids config fractionToString env files :
  List.map UploadFile.id
    (uploadFiles (handleFiles config fractionToString env (Some files)))
  = imap (fun i _ => generateId (random36 env i)) files.
Proof.
  destruct files as [|f fs] eqn:Hfs; [reflexivity|]. rewrite <- Hfs.
  rewrite handleFiles_turns by (rewrite Hfs; discriminate).
  unfold afterTurns. cbn [uploadFiles].
  apply list_eq. intros i.
  change (List.map UploadFile.id) with (fmap (M:=list) UploadFile.id).
  rewrite list_lookup_fmap, !list_lookup_imap.
  destruct (files !! i) as [file|] eqn:Hi; simpl; [|reflexivity].
  f_equal. apply lookup_lt_Some in Hi.
  destruct (Nat.ltb_spec i (length files)); [|lia].
  unfold uploaded.
  assert (Hid : UploadFile.id (prepare config fractionToString env i file)
                = generateId (random36 env i)).
  { unfold prepare. destruct (truthy_string _); reflexivity. }
  destruct (negb _); simpl; [rewrite uploadToS3_id|]; exact Hid.
Qed.

(** * Further properties *)

(** ** How an upload ends *)

(** Whatever the network does, [uploadToS3] returns without throwing: it
    emits [upload-start], sends the destination request, and ends either
    with the record completed and [upload-complete] as its last action,
    or with the record in error and, as its last action, [upload-error]
    carrying the message stored in the record. *)
Theorem uploadToS3_settles config ref file x u t :
  exists u' middle final,
    uploadToS3 config ref file x (u, t)
    = (Returned tt,
       (u', (t ++ [UploadStart ref (UploadFile.set_status Uploading u);
                   presignRequest config file]
               ++ middle ++ [final])%list))
    /\ ((UploadFile.status u' = Completed /\ final = UploadComplete ref u')
        \/ (UploadFile.status u' = Error /\
            exists message, UploadFile.error u' = Some message /\
                            final = UploadError ref u' message)).
Proof.
  unfold presignRequest.
  destruct x as [[message | [[] [body | message]]] tr].
  - run_upload. rewrite <- !app_assoc. simpl.
    eexists. exists []. eexists. split; [reflexivity|]. right. simpl. eauto.
  - destruct tr as [message | events [st |]]; run_upload.
    + rewrite <- !app_assoc. simpl.
      eexists. exists []. eexists. split; [reflexivity|]. right. simpl. eauto.
    + pose proof (afterProgress_fields
                    (UploadFile.set_s3Key (snd body)
                       (UploadFile.set_status Uploading u)) events)
        as (_ & _ & _ & _).
      destruct ((200 <=? st) && (st <? 300)); simpl;
        rewrite <- !app_assoc; simpl.
      * eexists.
        exists (XhrPut (String_or_undefined (fst body)) (File.type file) file
                :: progressTrace ref
                     (UploadFile.set_s3Key (snd body)
                        (UploadFile.set_status Uploading u)) events).
        eexists. split; [reflexivity|]. left. simpl. auto.
      * eexists.
        exists (XhrPut (String_or_undefined (fst body)) (File.type file) file
                :: progressTrace ref
                     (UploadFile.set_s3Key (snd body)
                        (UploadFile.set_status Uploading u)) events).
        eexists. split; [reflexivity|]. right. simpl. eauto.
    + rewrite <- !app_assoc. simpl.
      eexists.
      exists (XhrPut (String_or_undefined (fst body)) (File.type file) file
              :: progressTrace ref
                   (UploadFile.set_s3Key (snd body)
                      (UploadFile.set_status Uploading u)) events).
      eexists. split; [reflexivity|]. right. simpl. eauto.
  - run_upload. rewrite <- !app_assoc. simpl.
    eexists. exists []. eexists. split; [reflexivity|]. right. simpl. eauto.
  - run_upload. rewrite <- !app_assoc. simpl.
    eexists. exists []. eexists. split; [reflexivity|]. right. simpl. eauto.
  - run_upload. rewrite <- !app_assoc. simpl.
    eexists. exists []. eexists. split; [reflexivity|]. right. simpl. eauto.
Qed.

(** When the destination request fails, because [fetch] rejects, the
    response is not 2xx, or its body cannot be read, nothing is sent to
    the storage: the trace is the start, the request and the error, and
    the record differs from the one given only by its status and its
    error, [s3Key] and [progress] included.  A response that is not 2xx
    gives the message of the source, whatever its body. *)
Theorem uploadToS3_presign_failure config ref file x u t :
  presignSucceeds (presign x) = false ->
  exists message,
    uploadToS3 config ref file x (u, t)
    = (Returned tt,
       (UploadFile.set_error (Some message) (UploadFile.set_status Error u),
        (t ++ [UploadStart ref (UploadFile.set_status Uploading u);
               presignRequest config file;
               UploadError ref
                 (UploadFile.set_error (Some message)
                    (UploadFile.set_status Error u)) message])%list))
    /\ (forall r, presign x = FetchResolves r -> ok r = false ->
                  message = "Failed to get presigned URL").
Proof.
  intros Hfails. unfold presignRequest.
  destruct x as [[message | [[] [body | message]]] tr]; simpl in Hfails;
    try discriminate; run_upload; rewrite <- !app_assoc; simpl.
  - exists message. split; [reflexivity|]. intros r Hr. discriminate.
  - exists message. split; [reflexivity|].
    intros r Hr. injection Hr as <-. discriminate.
  - exists "Failed to get presigned URL". split; [reflexivity | reflexivity].
  - exists "Failed to get presigned URL". split; [reflexivity | reflexivity].
Qed.

Lemma uploadToS3_presign_failure_witness :
  exists message,
    uploadToS3 openConfig 0 iconFile denied (freshIcon, [])
    = (Returned tt,
       (UploadFile.set_error (Some message)
          (UploadFile.set_status Error freshIcon),
        ([] ++ [UploadStart 0 (UploadFile.set_status Uploading freshIcon);
                presignRequest openConfig iconFile;
                UploadError 0
                  (UploadFile.set_error (Some message)
                     (UploadFile.set_status Error freshIcon)) message])%list))
    /\ (forall r, presign denied = FetchResolves r -> ok r = false ->
                  message = "Failed to get presigned URL").
Proof.
  apply (uploadToS3_presign_failure openConfig 0 iconFile denied freshIcon []).
  reflexivity.
Defined.



Lemma requests_app t1 t2 :
  requests (t1 ++ t2) = (requests t1 ++ requests t2)%list.
Proof. unfold requests. apply List.filter_app. Qed.

Lemma requests_progressTrace ref events : forall u,
  requests (progressTrace ref u events) = [].
Proof.
  induction events as [|e events IH]; intros u; simpl; [reflexivity|].
  destruct (lengthComputable e); [|apply IH]. simpl. apply IH.
Qed.

(** One upload sends the destination request and, only when that request
    succeeds and the PUT can be prepared, one PUT after it: to the
    [uploadUrl] of the response, with the type of the file as content type
    and the file as body.  It sends nothing else. *)
Theorem uploadToS3_requests config ref file x u :
  requests (snd (snd (uploadToS3 config ref file x (u, []))))
  = presignRequest config file
    :: match presign x, transfer x with
       | FetchResolves {| ok := true; json := Returned body |}, Runs _ _ =>
           [XhrPut (String_or_undefined (fst body)) (File.type file) file]
       | _, _ => []
       end.
Proof.
  unfold presignRequest.
  destruct x as [[message | [[] [body | message]]] tr];
    try (run_upload; reflexivity).
  destruct tr as [message | events [st |]]; run_upload; try reflexivity.
  - destruct ((200 <=? st) && (st <? 300)); simpl;
      rewrite !requests_app, requests_progressTrace; reflexivity.
  - rewrite !requests_app, requests_progressTrace. reflexivity.
Qed.

(** ** Bounds of the progress *)






(** ** The records and the trace of a batch *)

Lemma afterProgress_identity u events :
  identity (afterProgress u events) = identity u.
Proof.
  revert u. induction events as [|e events IH]; intros u; simpl;
    [reflexivity|].
  destruct (lengthComputable e); [|apply IH]. now rewrite IH.
Qed.

Lemma uploadToS3_identity config ref file x u t :
  identity (fst (snd (uploadToS3 config ref file x (u, t)))) = identity u.
Proof.
  destruct x as [[message | [[] [body | message]]] tr];
    try (run_upload; reflexivity).
  pose proof (afterProgress_identity
                (UploadFile.set_s3Key (snd body)
                   (UploadFile.set_status Uploading u))) as Hkeep.
  unfold identity in *.
  destruct tr as [message | events [st |]]; run_upload; try reflexivity.
  - destruct ((200 <=? st) && (st <? 300)); simpl; apply Hkeep.
  - apply Hkeep.
Qed.

(** The record [uploadToS3] leaves is completed at 100 with the error it
    had, or in error with a message. *)
Lemma uploadToS3_outcome config ref file x u t :
  (UploadFile.status (fst (snd (uploadToS3 config ref file x (u, t))))
     = Completed
   /\ UploadFile.error (fst (snd (uploadToS3 config ref file x (u, t))))
      = UploadFile.error u
   /\ UploadFile.progress (fst (snd (uploadToS3 config ref file x (u, t))))
      = Some 100)
  \/ (UploadFile.status (fst (snd (uploadToS3 config ref file x (u, t))))
        = Error
      /\ exists message,
           UploadFile.error (fst (snd (uploadToS3 config ref file x (u, t))))
           = Some message).
Proof.
  destruct x as [[message | [[] [body | message]]] tr];
    try solve [run_upload; right; eauto].
  pose proof (afterProgress_fields
                (UploadFile.set_s3Key (snd body)
                   (UploadFile.set_status Uploading u))) as Hkeep.
  destruct tr as [message | events [st |]]; run_upload;
    try solve [right; eauto].
  destruct ((200 <=? st) && (st <? 300)); simpl; [left | right; eauto].
  repeat split. apply Hkeep.
Qed.

(** Every action of one upload is a request or a notification about the
    record uploaded. *)
Lemma uploadToS3_belongs config ref file x u :
  Forall (fun a => isRequest a = true \/ actionRef a = Some ref)
    (snd (snd (uploadToS3 config ref file x (u, [])))).
Proof.
  assert (Hlisten : forall events w,
    Forall (fun a => isRequest a = true \/ actionRef a = Some ref)
      (progressTrace ref w events)).
  { induction events as [|e events IH]; intros w; simpl; [constructor|].
    destruct (lengthComputable e); [|apply IH].
    constructor; [now right | apply IH]. }
  assert (Hlast : forall a,
    isRequest a = true \/ actionRef a = Some ref ->
    Forall (fun a => isRequest a = true \/ actionRef a = Some ref) [a])
    by (intros a Ha; constructor; [exact Ha | constructor]).
  destruct x as [[message | [[] [body | message]]] tr];
    try solve [run_upload;
               repeat (constructor; [auto|]); constructor].
  destruct tr as [message | events [st |]]; run_upload.
  - repeat (constructor; [auto|]); constructor.
  - destruct ((200 <=? st) && (st <? 300)); simpl;
      (repeat (constructor; [auto|]);
       apply Forall_app; split; [apply Hlisten | apply Hlast; auto]).
  - repeat (constructor; [auto|]).
    apply Forall_app; split; [apply Hlisten | apply Hlast; auto].
Qed.

Lemma uploadToS3_fetches config ref file x u :
  List.filter isFetch (snd (snd (uploadToS3 config ref file x (u, []))))
  = [presignRequest config file].
Proof.
  assert (Hlisten : forall events w,
    List.filter isFetch (progressTrace ref w events) = []).
  { induction events as [|e events IH]; intros w; simpl; [reflexivity|].
    destruct (lengthComputable e); [|apply IH]. simpl. apply IH. }
  unfold presignRequest.
  destruct x as [[message | [[] [body | message]]] tr];
    try (run_upload; reflexivity).
  destruct tr as [message | events [st |]]; run_upload; try reflexivity.
  - destruct ((200 <=? st) && (st <? 300)); simpl;
      rewrite !List.filter_app, Hlisten; reflexivity.
  - rewrite !List.filter_app, Hlisten. reflexivity.
Qed.

(** A message of [validateFile] is never the empty string, so that the
    test of [handleFiles] on it is a test for [null]. *)
Lemma validateFile_truthy config fractionToString file :
  truthy_string (validateFile config fractionToString file)
  = match validateFile config fractionToString file with
    | Some _ => true
    | None => false
    end.
Proof.
  unfold validateFile.
  destruct (truthy (S3UploadConfig.maxFileSize config) && _);
    [reflexivity|].
  destruct (match S3UploadConfig.allowedTypes config with
            | Some _ => _ | None => _ end); reflexivity.
Qed.

Section BatchFacts.

Variable config : S3UploadConfig.t.
Variable fractionToString : Q -> string.
Variable env : Env.
Variable files : list File.t.

Lemma handleFiles_lookup i file :
  files !! i = Some file ->
  uploadFiles (handleFiles config fractionToString env (Some files)) !! i
  = Some (fst (uploaded config fractionToString env i file)).
Proof.
  intros Hi.
  assert (Hne : files <> []) by (intros ->; discriminate).
  rewrite handleFiles_turns by assumption.
  unfold afterTurns. cbn [uploadFiles].
  rewrite list_lookup_imap, Hi. simpl.
  apply lookup_lt_Some in Hi.
  destruct (Nat.ltb_spec i (length files)); [reflexivity | lia].
Qed.

Lemma handleFiles_length :
  length (uploadFiles (handleFiles config fractionToString env (Some files)))
  = length files.
Proof.
  destruct files as [|f fs] eqn:Hfs; [reflexivity|]. rewrite <- Hfs.
  rewrite handleFiles_turns by (rewrite Hfs; discriminate).
  unfold afterTurns. cbn [uploadFiles]. apply length_imap.
Qed.

Lemma handleFiles_trace :
  files <> [] ->
  trace (handleFiles config fractionToString env (Some files))
  = FilesSelected (imap (prepare config fractionToString env) files)
    :: turns config fractionToString env files (length files).
Proof. intros Hne. now rewrite handleFiles_turns. Qed.

Lemma turns_belong k :
  Forall
    (fun a =>
       isRequest a = true \/
       exists j file, actionRef a = Some j /\ files !! j = Some file /\
                      passes config fractionToString file = true)
    (turns config fractionToString env files k).
Proof.
  induction k as [|k IH]; [constructor|].
  unfold turns in *. rewrite seq_S, map_app, concat_app.
  apply Forall_app. split; [exact IH|]. simpl. rewrite app_nil_r.
  destruct (files !! k) as [file|] eqn:Hk; [|constructor].
  unfold uploaded. rewrite prepare_status.
  fold (passes config fractionToString file).
  destruct (truthy_string (validateFile config fractionToString file))
    eqn:Hv; simpl; [constructor|].
  eapply List.Forall_impl; [|apply uploadToS3_belongs].
  intros a [Ha | Ha]; [now left | right].
  exists k, file. repeat split; try assumption.
  unfold passes. now rewrite Hv.
Qed.

Lemma turns_fetches k :
  (k <= length files)%nat ->
  List.filter isFetch (turns config fractionToString env files k)
  = List.map (presignRequest config)
      (List.filter (passes config fractionToString) (take k files)).
Proof.
  induction k as [|k IH]; intros Hk; [reflexivity|].
  destruct (lookup_lt_is_Some_2 files k) as [file Hfile]; [lia|].
  rewrite (turns_S _ _ _ _ k file Hfile), List.filter_app, IH by lia.
  rewrite (take_S_r _ _ _ Hfile), List.filter_app, List.map_app.
  f_equal. unfold uploaded. rewrite prepare_status. simpl. unfold passes.
  destruct (truthy_string (validateFile config fractionToString file));
    simpl; [reflexivity | apply uploadToS3_fetches].
Qed.

End BatchFacts.

(** The first thing a batch does is to emit [files-selected], once, with
    one record per selected file in the order of the selection: pending
    when the file passes validation and in error otherwise, without a key
    and at 0 percent.  Whatever follows is a request or a notification
    about one record. *)
Theorem handleFiles_selection_first config fractionToString env files :
  files <> [] ->
  exists rest,
    trace (handleFiles config fractionToString env (Some files))
    = FilesSelected (imap (prepare config fractionToString env) files) :: rest
    /\ Forall (fun a => isRequest a = true \/ actionRef a <> None) rest
    /\ List.map UploadFile.status
         (imap (prepare config fractionToString env) files)
       = List.map
           (fun file =>
              if passes config fractionToString file then Pending else Error)
           files
    /\ Forall (fun u => UploadFile.s3Key u = None /\
                        UploadFile.progress u = Some 0)
         (imap (prepare config fractionToString env) files).
Proof.
  intros Hne. eexists. split; [now apply handleFiles_trace|].
  split; [|split].
  - eapply List.Forall_impl; [|apply turns_belong].
    intros a [Ha | (j & file & Ha & _)]; [now left | right; congruence].
  - apply list_eq. intros i.
    change (List.map ?f) with (fmap (M:=list) f).
    rewrite !list_lookup_fmap, list_lookup_imap.
    destruct (files !! i) as [file|]; simpl; [|reflexivity].
    rewrite prepare_status. unfold passes.
    now destruct (truthy_string _).
  - apply Forall_lookup. intros i u Hu.
    rewrite list_lookup_imap in Hu.
    destruct (files !! i) as [file|]; simpl in Hu; [|discriminate].
    injection Hu as <-. unfold prepare.
    destruct (truthy_string _); split; reflexivity.
Qed.

Lemma handleFiles_selection_first_witness :
  exists rest,
    trace (handleFiles tenMegConfig noFraction secondFails
             (Some [scanFile; iconFile]))
    = FilesSelected
        (imap (prepare tenMegConfig noFraction secondFails)
           [scanFile; iconFile]) :: rest
    /\ Forall (fun a => isRequest a = true \/ actionRef a <> None) rest
    /\ List.map UploadFile.status
         (imap (prepare tenMegConfig noFraction secondFails)
            [scanFile; iconFile])
       = List.map
           (fun file =>
              if passes tenMegConfig noFraction file then Pending else Error)
           [scanFile; iconFile]
    /\ Forall (fun u => UploadFile.s3Key u = None /\
                        UploadFile.progress u = Some 0)
         (imap (prepare tenMegConfig noFraction secondFails)
            [scanFile; iconFile]).
Proof.
  apply (handleFiles_selection_first tenMegConfig noFraction secondFails
           [scanFile; iconFile]).
  discriminate.
Defined.

(** Uploading never touches what identifies a record: at the end of a
    batch the record at each position has the id drawn at its creation,
    the name, size and type of the file at that position, and the instant
    of its creation. *)
Theorem handleFiles_keeps_identity config fractionToString env files :
  List.map identity
    (uploadFiles (handleFiles config fractionToString env (Some files)))
  = imap (fun i file =>
            (generateId (random36 env i), File.name file, File.size file,
             File.type file, now env i))
         files.
Proof.
  apply list_eq. intros i.
  change (List.map identity) with (fmap (M:=list) identity).
  rewrite list_lookup_fmap, list_lookup_imap.
  destruct (files !! i) as [file|] eqn:Hi.
  - rewrite (handleFiles_lookup _ _ _ _ i file Hi). simpl. f_equal.
    unfold uploaded.
    assert (Hid : identity (prepare config fractionToString env i file)
                  = (generateId (random36 env i), File.name file,
                     File.size file, File.type file, now env i)).
    { unfold prepare. destruct (truthy_string _); reflexivity. }
    destruct (negb _); simpl; [rewrite uploadToS3_identity|]; exact Hid.
  - apply lookup_ge_None in Hi.
    assert (uploadFiles (handleFiles config fractionToString env (Some files))
              !! i = None) as ->
      by (apply lookup_ge_None; rewrite handleFiles_length; lia).
    reflexivity.
Qed.

(** A batch sends one destination request for each file that passes
    validation, in the order of the selection and with the name, type and
    size of that file, and none for a file that fails it. *)
Theorem handleFiles_fetches config fractionToString env files :
  List.filter isFetch
    (trace (handleFiles config fractionToString env (Some files)))
  = List.map (presignRequest config)
      (List.filter (passes config fractionToString) files).
Proof.
  destruct files as [|f fs] eqn:Hfs; [reflexivity|]. rewrite <- Hfs.
  rewrite handleFiles_trace by (rewrite Hfs; discriminate).
  cbn [List.filter isFetch].
  rewrite turns_fetches by lia. now rewrite take_ge by lia.
Qed.

(** When a batch is over no record is left pending or uploading: each is
    completed, at 100 percent and without an error, or in error with a
    message. *)
Theorem handleFiles_all_settled config fractionToString env files :
  Forall
    (fun u =>
       (UploadFile.status u = Completed /\ UploadFile.error u = None /\
        UploadFile.progress u = Some 100)
       \/ (UploadFile.status u = Error /\
           exists message, UploadFile.error u = Some message))
    (uploadFiles (handleFiles config fractionToString env (Some files))).
Proof.
  apply Forall_lookup. intros i u Hu.
  destruct (files !! i) as [file|] eqn:Hi.
  - rewrite (handleFiles_lookup _ _ _ _ i file Hi) in Hu. injection Hu as <-.
    unfold uploaded, prepare.
    destruct (truthy_string (validateFile config fractionToString file))
      eqn:Hv; simpl.
    + right. split; [reflexivity|].
      destruct (validateFile config fractionToString file) as [m|];
        [eauto | discriminate].
    + destruct (uploadToS3_outcome config i file (exchange env i)
                  (createUploadFile (random36 env i) (now env i) file) [])
        as [(Hs & He & Hp) | Herr]; [left | right; exact Herr].
      repeat split; assumption.
  - apply lookup_lt_Some in Hu. rewrite handleFiles_length in Hu.
    apply lookup_ge_None in Hi. lia.
Qed.

(** A file that fails validation is never uploaded: its record stays the
    one created for it, in error with the message of [validateFile], and no
    notification of the batch after [files-selected] is about it. *)
Theorem handleFiles_rejected_file config fractionToString env files i file
  message :
  files !! i = Some file ->
  validateFile config fractionToString file = Some message ->
  uploadFiles (handleFiles config fractionToString env (Some files)) !! i
  = Some (UploadFile.set_error (Some message)
            (UploadFile.set_status Error
               (createUploadFile (random36 env i) (now env i) file)))
  /\ Forall (fun a => actionRef a <> Some i)
       (trace (handleFiles config fractionToString env (Some files))).
Proof.
  intros Hi Hv.
  assert (Htruthy :
    truthy_string (validateFile config fractionToString file) = true)
    by (rewrite validateFile_truthy, Hv; reflexivity).
  split.
  - rewrite (handleFiles_lookup _ _ _ _ i file Hi). f_equal.
    unfold uploaded, prepare. rewrite Htruthy. simpl. now rewrite Hv.
  - rewrite handleFiles_trace by (intros ->; discriminate).
    constructor; [discriminate|].
    eapply List.Forall_impl; [|apply turns_belong].
    intros a [Ha | (j & file' & Ha & Hj & Hpass)].
    + destruct a; simpl in *; discriminate.
    + rewrite Ha. intros Heq. injection Heq as ->.
      rewrite Hi in Hj. injection Hj as <-.
      unfold passes in Hpass. rewrite Htruthy in Hpass. discriminate.
Qed.

Lemma handleFiles_rejected_file_witness :
  uploadFiles (handleFiles tenMegConfig noFraction secondFails
                 (Some [scanFile; iconFile])) !! 0%nat
  = Some (UploadFile.set_error (Some "File exceeds maximum size of 10MB")
            (UploadFile.set_status Error
               (createUploadFile (random36 secondFails 0) (now secondFails 0)
                  scanFile)))
  /\ Forall (fun a => actionRef a <> Some 0%nat)
       (trace (handleFiles tenMegConfig noFraction secondFails
                 (Some [scanFile; iconFile]))).
Proof.
  apply (handleFiles_rejected_file tenMegConfig noFraction secondFails
           [scanFile; iconFile] 0 scanFile
           "File exceeds maximum size of 10MB"); reflexivity.
Defined.

(** Without a limit, or with a limit of zero, the component shows a
    maximum of 100 megabytes and enforces none: [validateFile] then never
    returns the size message, whatever the size of the file. *)
Theorem maxSizeMB_default_not_enforced config fractionToString :
  truthy (S3UploadConfig.maxFileSize config) = false ->
  Number_toString fractionToString (maxSizeMB config) = "100"
  /\ forall file,
       validateFile config fractionToString file = None
       \/ validateFile config fractionToString file
          = Some ("File type " ++ File.type file ++ " is not allowed").
Proof.
  intros Hfalsy. split.
  - unfold maxSizeMB. destruct (S3UploadConfig.maxFileSize config) as [m|];
      [|reflexivity].
    simpl in Hfalsy. destruct (m =? 0); [reflexivity | discriminate].
  - intros file. unfold validateFile. rewrite Hfalsy. simpl.
    destruct (match S3UploadConfig.allowedTypes config with
              | Some _ => _ | None => _ end); auto.
Qed.

Lemma maxSizeMB_default_not_enforced_witness :
  Number_toString noFraction (maxSizeMB zeroLimitConfig) = "100"
  /\ forall file,
       validateFile zeroLimitConfig noFraction file = None
       \/ validateFile zeroLimitConfig noFraction file
          = Some ("File type " ++ File.type file ++ " is not allowed").
Proof.
  apply (maxSizeMB_default_not_enforced zeroLimitConfig noFraction).
  reflexivity.
Defined.

(** ** The table on its numeric columns *)

Lemma Array_sort_ext {A} (f g : A -> A -> Z) l :
  (forall a b, f a b = g a b) -> Array_sort f l = Array_sort g l.
Proof.
  intros Hfg. induction l as [|x l IH]; [reflexivity|].
  cbn [Array_sort fold_right]. fold (Array_sort f l) (Array_sort g l).
  rewrite IH. generalize (Array_sort g l) as s.
  induction s as [|y s IHs]; [reflexivity|].
  simpl. rewrite Hfg, IHs. reflexivity.
Qed.

Lemma Sorted_weaken {A} (R R' : A -> A -> Prop) l :
  (forall a b, R a b -> R' a b) -> Sorted R l -> Sorted R' l.
Proof.
  intros HR. induction 1 as [|x l Hs IH Hhd]; constructor; [assumption|].
  destruct Hhd; constructor; auto.
Qed.

Lemma StronglySorted_weaken {A} (R R' : A -> A -> Prop) l :
  (forall a b, R a b -> R' a b) -> StronglySorted R l -> StronglySorted R' l.
Proof.
  intros HR. induction 1 as [|x l Hs IH Hx]; constructor; [assumption|].
  eapply List.Forall_impl; [|exact Hx]. auto.
Qed.

(** Sorting what is in order changes nothing. *)
Lemma Array_sort_in_order {A} (compareFn : A -> A -> Z) l :
  Sorted (fun a b => compareFn a b <= 0) l -> Array_sort compareFn l = l.
Proof.
  induction 1 as [|x l Hs IH Hhd]; [reflexivity|].
  cbn [Array_sort fold_right]. fold (Array_sort compareFn l). rewrite IH.
  destruct Hhd as [|y l Hxy]; [reflexivity|].
  simpl. destruct (Z.leb_spec (compareFn x y) 0); [reflexivity | lia].
Qed.

Section NumericOrder.

Context {A : Type}.
Variable keyOf : A -> Z.

Lemma sort_up_ordered l :
  StronglySorted (fun a b => keyOf a <= keyOf b) (Array_sort (fun a b => keyOf a - keyOf b) l).
Proof.
  apply Sorted_StronglySorted; [intros a b c; lia|].
  apply Sorted_weaken with (R := fun a b => keyOf a - keyOf b <= 0);
    [intros; lia|].
  apply Array_sort_Sorted. intros. lia.
Qed.

Lemma sort_down_ordered l :
  StronglySorted (fun a b => keyOf b <= keyOf a) (Array_sort (fun a b => keyOf b - keyOf a) l).
Proof.
  apply Sorted_StronglySorted; [intros a b c; lia|].
  apply Sorted_weaken with (R := fun a b => keyOf b - keyOf a <= 0);
    [intros; lia|].
  apply Array_sort_Sorted. intros. lia.
Qed.

Lemma StronglySorted_snoc (R : A -> A -> Prop) l x :
  StronglySorted R l -> Forall (fun y => R y x) l ->
  StronglySorted R (l ++ [x]).
Proof.
  induction 1 as [|y l Hs IH Hy]; intros Hall; simpl.
  - repeat constructor.
  - apply List.Forall_cons_iff in Hall as [Hyx Hall].
    constructor; [now apply IH|].
    apply Forall_app. split; [assumption | now constructor].
Qed.

Lemma StronglySorted_rev (R : A -> A -> Prop) l :
  StronglySorted R l -> StronglySorted (fun a b => R b a) (rev l).
Proof.
  induction 1 as [|x l Hs IH Hx]; simpl; [constructor|].
  apply StronglySorted_snoc; [assumption|].
  apply List.Forall_rev. assumption.
Qed.

(** With keys that are all different, at most one element has a given
    key. *)
Lemma filter_key_single l c :
  List.NoDup (List.map keyOf l) ->
  rev (List.filter (fun y => keyOf y =? c) l)
  = List.filter (fun y => keyOf y =? c) l.
Proof.
  induction l as [|x l IH]; intros Hnodup; [reflexivity|].
  simpl in Hnodup. apply List.NoDup_cons_iff in Hnodup as [Hx Hnodup].
  simpl. destruct (Z.eqb_spec (keyOf x) c) as [Hc|_]; [|now apply IH].
  assert (List.filter (fun y => keyOf y =? c) l = []) as ->; [|reflexivity].
  destruct (List.filter (fun y => keyOf y =? c) l) as [|y rest] eqn:Hf;
    [reflexivity|].
  exfalso. apply Hx.
  assert (In y (List.filter (fun y => keyOf y =? c) l)) as Hy
    by (rewrite Hf; now left).
  apply filter_In in Hy as [Hy Hyc]. apply Z.eqb_eq in Hyc.
  rewrite Hc, <- Hyc. now apply in_map.
Qed.

(** With keys that are all different, the descending order is the
    ascending order read backwards. *)
Lemma sort_down_rev l :
  List.NoDup (List.map keyOf l) ->
  Array_sort (fun a b => keyOf b - keyOf a) l
  = rev (Array_sort (fun a b => keyOf a - keyOf b) l).
Proof.
  intros Hnodup. symmetry.
  apply Array_sort_determined; try (intros; lia).
  - rewrite <- Permutation_rev. symmetry. apply Array_sort_Permutation.
  - pose proof (StronglySorted_rev (fun a b => keyOf a <= keyOf b) _
                  (sort_up_ordered l)) as Hrev.
    eapply StronglySorted_weaken; [|exact Hrev]. simpl. intros. lia.
  - intros r. rewrite filter_rev.
    assert (Hsame : forall y,
      (keyOf y - keyOf r =? 0) = (keyOf y =? keyOf r))
      by (intros y; destruct (Z.eqb_spec (keyOf y - keyOf r) 0),
                           (Z.eqb_spec (keyOf y) (keyOf r)); lia).
    assert (Hup : forall y,
      (keyOf r - keyOf y =? 0) = (keyOf y =? keyOf r))
      by (intros y; destruct (Z.eqb_spec (keyOf r - keyOf y) 0),
                           (Z.eqb_spec (keyOf y) (keyOf r)); lia).
    pose proof (Array_sort_class (fun a b => keyOf a - keyOf b) r l) as Hclass.
    simpl in Hclass.
    rewrite (filter_ext _ _ Hup (Array_sort _ l)),
            (filter_ext _ _ Hup l) in Hclass by (intros; lia).
    rewrite (filter_ext _ _ Hsame (Array_sort _ l)), (filter_ext _ _ Hsame l).
    rewrite Hclass by (intros; lia).
    now apply filter_key_single.
Qed.

End NumericOrder.

Lemma compareUploads_uploadedAt localeCompare dateToString sortDirection a b :
  compareUploads localeCompare dateToString "uploadedAt" sortDirection a b
  = match sortDirection with
    | asc => UploadFile.uploadedAt a - UploadFile.uploadedAt b
    | desc => UploadFile.uploadedAt b - UploadFile.uploadedAt a
    end.
Proof. unfold compareUploads. simpl. destruct sortDirection; lia. Qed.

(** Sorted by size or by date, the projection is in the order asked for:
    sizes or instants go up along the list when the direction is
    ascending and down when it is descending.  The table opens sorted by
    date, descending: the newest upload comes first. *)
Theorem filteredAndSortedUploads_numeric_order toLowerCase localeCompare
  dateToString props filterText :
  StronglySorted (fun a b => UploadFile.size a <= UploadFile.size b)
    (filteredAndSortedUploads toLowerCase localeCompare dateToString props
       filterText "size" asc)
  /\ StronglySorted (fun a b => UploadFile.size b <= UploadFile.size a)
       (filteredAndSortedUploads toLowerCase localeCompare dateToString props
          filterText "size" desc)
  /\ StronglySorted
       (fun a b => UploadFile.uploadedAt a <= UploadFile.uploadedAt b)
       (filteredAndSortedUploads toLowerCase localeCompare dateToString props
          filterText "uploadedAt" asc)
  /\ StronglySorted
       (fun a b => UploadFile.uploadedAt b <= UploadFile.uploadedAt a)
       (filteredAndSortedUploads toLowerCase localeCompare dateToString props
          filterText "uploadedAt" desc).
Proof.
  rewrite !filteredAndSortedUploads_sort.
  rewrite (Array_sort_ext _ (fun a b => UploadFile.size a - UploadFile.size b))
    by (intros; apply compareUploads_size).
  rewrite (Array_sort_ext (compareUploads _ _ "size" desc)
             (fun a b => UploadFile.size b - UploadFile.size a))
    by (intros; apply compareUploads_size).
  rewrite (Array_sort_ext (compareUploads _ _ "uploadedAt" asc)
             (fun a b => UploadFile.uploadedAt a - UploadFile.uploadedAt b))
    by (intros; apply compareUploads_uploadedAt).
  rewrite (Array_sort_ext (compareUploads _ _ "uploadedAt" desc)
             (fun a b => UploadFile.uploadedAt b - UploadFile.uploadedAt a))
    by (intros; apply compareUploads_uploadedAt).
  repeat split;
    first [apply (sort_up_ordered UploadFile.size)
          | apply (sort_down_ordered UploadFile.size)
          | apply (sort_up_ordered UploadFile.uploadedAt)
          | apply (sort_down_ordered UploadFile.uploadedAt)].
Qed.

Lemma handleSort_same sortKey sortDirection :
  handleSort sortKey sortDirection sortKey = (sortKey, opposite sortDirection).
Proof. unfold handleSort. rewrite String.eqb_refl. now destruct sortDirection. Qed.

(** A click on the header of the column the table is sorted by, when that
    column is the size or the date and no two of the records shown have
    the same value in it, turns the list shown upside down. *)
Theorem handleSort_reverses toLowerCase localeCompare dateToString props
  filterText sortKey sortDirection :
  sortKey = "size" \/ sortKey = "uploadedAt" ->
  List.NoDup
    (List.map (fun u => getProperty u sortKey)
       (filteredUploads toLowerCase props filterText)) ->
  filteredAndSortedUploads toLowerCase localeCompare dateToString props
    filterText
    (fst (handleSort sortKey sortDirection sortKey))
    (snd (handleSort sortKey sortDirection sortKey))
  = rev (filteredAndSortedUploads toLowerCase localeCompare dateToString
           props filterText sortKey sortDirection).
Proof.
  intros Hkey Hnodup. rewrite handleSort_same. cbn [fst snd].
  rewrite !filteredAndSortedUploads_sort.
  set (l := filteredUploads toLowerCase props filterText) in *.
  assert (Hgeneric : forall keyOf : UploadFile.t -> Z,
    List.NoDup (List.map keyOf l) ->
    (forall d a b,
       compareUploads localeCompare dateToString sortKey d a b
       = match d with
         | asc => keyOf a - keyOf b
         | desc => keyOf b - keyOf a
         end) ->
    Array_sort (compareUploads localeCompare dateToString sortKey
                  (opposite sortDirection)) l
    = rev (Array_sort (compareUploads localeCompare dateToString sortKey
                         sortDirection) l)).
  { intros keyOf Hkeys Hcompare.
    rewrite (Array_sort_ext _ _ l (Hcompare (opposite sortDirection))).
    rewrite (Array_sort_ext _ _ l (Hcompare sortDirection)).
    destruct sortDirection; simpl.
    - now apply sort_down_rev.
    - rewrite (sort_down_rev keyOf l Hkeys). now rewrite rev_involutive. }
  destruct Hkey as [-> | ->].
  - apply (Hgeneric UploadFile.size).
    + apply (List.NoDup_map_inv VNumber). now rewrite List.map_map.
    + intros. apply compareUploads_size.
  - apply (Hgeneric UploadFile.uploadedAt).
    + apply (List.NoDup_map_inv VDate). now rewrite List.map_map.
    + intros. apply compareUploads_uploadedAt.
Qed.

Lemma handleSort_reverses_witness :
  filteredAndSortedUploads ascii_toLowerCase codeCompare noDate tableProps ""
    (fst (handleSort "uploadedAt" desc "uploadedAt"))
    (snd (handleSort "uploadedAt" desc "uploadedAt"))
  = rev (filteredAndSortedUploads ascii_toLowerCase codeCompare noDate
           tableProps "" "uploadedAt" desc).
Proof.
  apply (handleSort_reverses ascii_toLowerCase codeCompare noDate tableProps
           "" "uploadedAt" desc).
  - right. reflexivity.
  - simpl. repeat constructor; simpl; intuition discriminate.
Defined.

(** Clicks on one header: the first makes the column the sort key, the
    second turns the direction round, and the third brings back the state
    the first had left. *)
Theorem handleSort_clicks sortKey sortDirection key :
  fst (handleSort sortKey sortDirection key) = key
  /\ handleSort (fst (handleSort sortKey sortDirection key))
       (snd (handleSort sortKey sortDirection key)) key
     = (key, opposite (snd (handleSort sortKey sortDirection key)))
  /\ handleSort key (opposite (snd (handleSort sortKey sortDirection key))) key
     = handleSort sortKey sortDirection key.
Proof.
  destruct (String.eqb_spec sortKey key) as [-> | Hne].
  - rewrite !handleSort_same. cbn [fst snd]. rewrite ?handleSort_same.
    now destruct sortDirection.
  - assert (handleSort sortKey sortDirection key = (key, asc)) as ->.
    { unfold handleSort.
      destruct (String.eqb_spec sortKey key); [contradiction | reflexivity]. }
    cbn [fst snd]. rewrite !handleSort_same. auto.
Qed.

(** ** The table on any column *)

Lemma strictEquals_sym a b : strictEquals a b = strictEquals b a.
Proof.
  destruct a, b; simpl; try reflexivity;
    [apply String.eqb_sym | apply Z.eqb_sym].
Qed.

(** The comparator is antisymmetric when the collation is. *)
Lemma compareUploads_antisym localeCompare dateToString sortKey sortDirection
  a b :
  (forall s t, Z.sgn (localeCompare t s) = - Z.sgn (localeCompare s t)) ->
  Z.sgn (compareUploads localeCompare dateToString sortKey sortDirection b a)
  = - Z.sgn (compareUploads localeCompare dateToString sortKey sortDirection
               a b).
Proof.
  intros Hcollation. unfold compareUploads.
  rewrite (strictEquals_sym (getProperty b sortKey)).
  destruct (strictEquals (getProperty a sortKey) (getProperty b sortKey));
    [reflexivity|].
  assert (Hdiff : forall x y, Z.sgn (y - x) = - Z.sgn (x - y))
    by (intros x y; rewrite <- Z.sgn_opp; f_equal; lia).
  destruct (getProperty a sortKey), (getProperty b sortKey), sortDirection;
    rewrite ?Z.sgn_opp;
    first [apply Hcollation | apply Hdiff
          | f_equal; apply Hcollation | f_equal; apply Hdiff].
Qed.

Lemma filter_all {A} (f : A -> bool) l :
  (forall x, In x l -> f x = true) -> List.filter f l = l.
Proof.
  induction l as [|x l IH]; intros Hall; [reflexivity|].
  simpl. rewrite (Hall x) by now left.
  f_equal. apply IH. intros y Hy. apply Hall. now right.
Qed.

Lemma filteredUploads_In toLowerCase props filterText u :
  In u (filteredUploads toLowerCase props filterText)
  <-> In u (uploads props) /\
      (filterText = "" \/
       matchesSearch toLowerCase (toLowerCase filterText) u = true).
Proof.
  unfold filteredUploads, Array_filter. destruct filterText as [|c rest].
  - tauto.
  - rewrite filter_In. split; [tauto|].
    intros [Hin [Hempty | Hm]]; [discriminate | tauto].
Qed.

(** The projection of a projection is that projection: shown again
    through the same filter and the same sort, the rows keep their places.
    The collation is taken to be antisymmetric. *)
Theorem filteredAndSortedUploads_idempotent toLowerCase localeCompare
  dateToString props filterText sortKey sortDirection :
  (forall s t, Z.sgn (localeCompare t s) = - Z.sgn (localeCompare s t)) ->
  filteredAndSortedUploads toLowerCase localeCompare dateToString
    {| uploads :=
         filteredAndSortedUploads toLowerCase localeCompare dateToString
           props filterText sortKey sortDirection;
       columns := columns props |}
    filterText sortKey sortDirection
  = filteredAndSortedUploads toLowerCase localeCompare dateToString props
      filterText sortKey sortDirection.
Proof.
  intros Hcollation.
  rewrite (filteredAndSortedUploads_sort _ _ _ {| uploads := _ |}).
  set (shown := filteredAndSortedUploads toLowerCase localeCompare
                  dateToString props filterText sortKey sortDirection).
  assert (Hfilter :
    filteredUploads toLowerCase {| uploads := shown; columns := columns props |}
      filterText = shown).
  { unfold filteredUploads, Array_filter. cbn [uploads].
    destruct filterText as [|c rest] eqn:Hft; [reflexivity|].
    apply filter_all. intros u Hu. subst shown.
    rewrite filteredAndSortedUploads_sort in Hu.
    apply (Permutation_in u (Array_sort_Permutation _ _)) in Hu.
    apply filteredUploads_In in Hu as [_ [Hempty | Hm]];
      [discriminate | exact Hm]. }
  rewrite Hfilter. apply Array_sort_in_order.
  subst shown. rewrite filteredAndSortedUploads_sort.
  apply Array_sort_Sorted. intros a b Hab.
  pose proof (compareUploads_antisym localeCompare dateToString sortKey
                sortDirection a b Hcollation) as Hanti.
  destruct (compareUploads localeCompare dateToString sortKey sortDirection
              a b),
           (compareUploads localeCompare dateToString sortKey sortDirection
              b a); simpl in Hanti; lia.
Qed.

Lemma codeCompare_antisym s t :
  Z.sgn (codeCompare t s) = - Z.sgn (codeCompare s t).
Proof.
  unfold codeCompare. rewrite (String.compare_antisym s t).
  destruct (String.compare t s); reflexivity.
Qed.

Lemma filteredAndSortedUploads_idempotent_witness :
  filteredAndSortedUploads ascii_toLowerCase codeCompare noDate
    {| uploads :=
         filteredAndSortedUploads ascii_toLowerCase codeCompare noDate
           tableProps "png" "name" asc;
       columns := columns tableProps |}
    "png" "name" asc
  = filteredAndSortedUploads ascii_toLowerCase codeCompare noDate tableProps
      "png" "name" asc.
Proof.
  apply (filteredAndSortedUploads_idempotent ascii_toLowerCase codeCompare
           noDate tableProps "png" "name" asc).
  exact codeCompare_antisym.
Defined.

Lemma Contains_trans s middle search :
  Contains s middle -> Contains middle search -> Contains s search.
Proof.
  intros (b1 & a1 & ->) (b2 & a2 & ->).
  exists (b1 ++ b2), (a2 ++ a1).
  now rewrite !string_app_assoc.
Qed.

(** A longer filter text never brings a row back: when the lower-cased
    text contains the lower-cased text it replaces, every record shown
    under the new text was shown under the old one. *)
Theorem filteredAndSortedUploads_narrows toLowerCase localeCompare dateToString
  props before after sortKey sortDirection u :
  after <> "" ->
  Contains (toLowerCase after) (toLowerCase before) ->
  In u (filteredAndSortedUploads toLowerCase localeCompare dateToString props
          after sortKey sortDirection) ->
  In u (filteredAndSortedUploads toLowerCase localeCompare dateToString props
          before sortKey sortDirection).
Proof.
  intros Hafter Hcontains Hin.
  rewrite filteredAndSortedUploads_sort in *.
  apply (Permutation_in u (Array_sort_Permutation _ _)) in Hin.
  apply (Permutation_in u (Permutation_sym (Array_sort_Permutation _ _))).
  apply filteredUploads_In in Hin as [Hin [Hempty | Hm]]; [contradiction|].
  apply filteredUploads_In. split; [assumption|]. right.
  apply matchesSearch_Contains in Hm. apply matchesSearch_Contains.
  destruct Hm as [Hm | [Hm | Hm]];
    [left | right; left | right; right];
    exact (Contains_trans _ _ _ Hm Hcontains).
Qed.

Lemma filteredAndSortedUploads_narrows_witness :
  In aPng
    (filteredAndSortedUploads ascii_toLowerCase codeCompare noDate tableProps
       "pn" "name" asc).
Proof.
  apply (filteredAndSortedUploads_narrows ascii_toLowerCase codeCompare noDate
           tableProps "pn" "png" "name" asc aPng).
  - discriminate.
  - exists "", "g". reflexivity.
  - vm_compute. right. left. reflexivity.
Defined.

(** ** Cells *)

(** A size within 51 bytes under a mebibyte is shown in kilobytes, rounded
    up to one decimal: the table prints 1024.0 KB, not 1.0 MB. *)
Theorem formatSize_just_under_megabyte bytes :
  1048525 <= bytes < 1048576 ->
  formatSize bytes = "1024.0 KB".
Proof.
  intros Hrange. unfold formatSize.
  destruct (Z.ltb_spec bytes 1024); [lia|].
  destruct (Z.ltb_spec bytes (1024 * 1024)); [|lia].
  unfold toFixed1, toFixed1_abs, Qdiv, Qmult, Qinv. simpl Qnum. simpl Qden.
  rewrite Z.mul_1_r.
  destruct (Z.ltb_spec bytes 0); [lia|].
  change (Z.pos (1 * 1024)) with 1024.
  replace ((20 * bytes + 1024) / (2 * 1024)) with 10240; [reflexivity|].
  apply Z.div_unique with (r := 20 * bytes + 1024 - 10240 * 2048); lia.
Qed.

Lemma formatSize_just_under_megabyte_witness :
  formatSize 1048575 = "1024.0 KB".
Proof. apply (formatSize_just_under_megabyte 1048575). lia. Defined.



(** ** The text field *)

(** A key press emits at most a [submit], never an update, and a [submit]
    only for Enter without Shift, with a field that is neither disabled
    nor loading, and with the trimmed text, which is then not empty.  The
    default action of Enter without Shift is prevented whether or not
    anything is submitted, and of no other key. *)
Theorem handleKeydown_guard trim props event :
  (forall value,
     In (MessageTextField.EmitSubmit value)
        (MessageTextField.handleKeydown trim props event) ->
     value = trim (MessageTextField.inputValue props) /\ value <> "" /\
     MessageTextField.key event = "Enter" /\
     MessageTextField.shiftKey event = false /\
     MessageTextField.disabled props <> Some true /\
     MessageTextField.loading props <> Some true)
  /\ (forall value,
        ~ In (MessageTextField.EmitUpdate value)
            (MessageTextField.handleKeydown trim props event))
  /\ (In MessageTextField.PreventDefault
         (MessageTextField.handleKeydown trim props event)
      <-> MessageTextField.key event = "Enter" /\
          MessageTextField.shiftKey event = false)
  /\ (length (MessageTextField.handleKeydown trim props event) <= 2)%nat.
Proof.
  unfold MessageTextField.handleKeydown, MessageTextField.handleSubmit.
  destruct (String.eqb_spec (MessageTextField.key event) "Enter") as [Hk|Hk];
    destruct (MessageTextField.shiftKey event) eqn:Hshift; simpl;
    try (repeat split; try tauto; try lia;
         intros; intuition congruence).
  destruct (trim (MessageTextField.inputValue props)) as [|c rest] eqn:Htrim;
    simpl.
  - repeat split; try tauto; try lia; intros; intuition congruence.
  - destruct (MessageTextField.disabled props) as [[]|],
             (MessageTextField.loading props) as [[]|]; simpl;
      repeat split; try tauto; try lia; intros;
      intuition (try congruence; try discriminate).
Qed.

(** ** More on uploads and on the table *)

Lemma forEach_computable ref events : forall c,
  forEach (List.filter lengthComputable events) (onProgress ref) c
  = forEach events (onProgress ref) c.
Proof.
  induction events as [|e events IH]; intros c; [reflexivity|].
  simpl. destruct (lengthComputable e) eqn:He; simpl.
  - unfold bind. destruct (onProgress ref e c) as [[[]|m] c']; [apply IH|].
    reflexivity.
  - rewrite IH. unfold bind, onProgress. rewrite He. reflexivity.
Qed.

(** Progress events without a computable length leave no mark: the record
    and the trace of an upload are what they would be had those events
    not occurred. *)
Theorem uploadToS3_skips_uncomputable config ref file x c :
  uploadToS3 config ref file (computableOnly x) c
  = uploadToS3 config ref file x c.
Proof.
  destruct x as [p [message | events finish]]; [reflexivity|].
  unfold computableOnly, uploadToS3, tryCatch, xhrPut. simpl.
  unfold bind.
  destruct (assign (UploadFile.set_status Uploading) c) as [[[]|m0] c0];
    [|reflexivity].
  destruct (emit (UploadStart ref) c0) as [[[]|m1] c1]; [|reflexivity].
  destruct (fetch config file p c1) as [[r|m2] c2]; [|reflexivity].
  destruct ((if negb (ok r) then throw "Failed to get presigned URL"
             else ret tt) c2) as [[[]|m3] c3]; [|reflexivity].
  destruct (readJson r c3) as [[body|m4] c4]; [|reflexivity].
  destruct (assign (UploadFile.set_s3Key (snd body)) c4) as [[[]|m5] c5];
    [|reflexivity].
  destruct (send (XhrPut (String_or_undefined (fst body)) (File.type file)
                    file) c5) as [[[]|m6] c6]; [|reflexivity].
  now rewrite forEach_computable.
Qed.

(** The filter does not tell cases apart: two filter texts, neither
    empty, that are the same once lower-cased show the same rows. *)
Theorem filteredAndSortedUploads_case_blind toLowerCase localeCompare
  dateToString props text text' sortKey sortDirection :
  text <> "" -> text' <> "" ->
  toLowerCase text = toLowerCase text' ->
  filteredAndSortedUploads toLowerCase localeCompare dateToString props
    text sortKey sortDirection
  = filteredAndSortedUploads toLowerCase localeCompare dateToString props
      text' sortKey sortDirection.
Proof.
  intros Hne Hne' Hsame. unfold filteredAndSortedUploads.
  destruct text; [contradiction|]. destruct text'; [contradiction|].
  now rewrite Hsame.
Qed.

Lemma filteredAndSortedUploads_case_blind_witness :
  filteredAndSortedUploads ascii_toLowerCase codeCompare noDate tableProps
    "PNG" "name" asc
  = filteredAndSortedUploads ascii_toLowerCase codeCompare noDate tableProps
      "png" "name" asc.
Proof.
  apply (filteredAndSortedUploads_case_blind ascii_toLowerCase codeCompare
           noDate tableProps "PNG" "png" "name" asc).
  - discriminate.
  - discriminate.
  - reflexivity.
Defined.

(** Sorted by a key that names no field, the rows keep the order of the
    filtered input, in either direction. *)
Theorem filteredAndSortedUploads_unknown_key toLowerCase localeCompare
  dateToString props filterText sortKey sortDirection :
  (forall u, getProperty u sortKey = VUndefined) ->
  filteredAndSortedUploads toLowerCase localeCompare dateToString props
    filterText sortKey sortDirection
  = filteredUploads toLowerCase props filterText.
Proof.
  intros Hkey. rewrite filteredAndSortedUploads_sort.
  apply Array_sort_in_order.
  assert (Hzero : forall a b,
    compareUploads localeCompare dateToString sortKey sortDirection a b = 0)
    by (intros a b; unfold compareUploads; now rewrite !Hkey).
  induction (filteredUploads toLowerCase props filterText) as [|x l IH];
    constructor; [exact IH|].
  destruct l; constructor. rewrite Hzero. lia.
Qed.

Lemma filteredAndSortedUploads_unknown_key_witness :
  filteredAndSortedUploads ascii_toLowerCase codeCompare noDate tableProps
    "" "owner" desc
  = filteredUploads ascii_toLowerCase tableProps "".
Proof.
  apply (filteredAndSortedUploads_unknown_key ascii_toLowerCase codeCompare
           noDate tableProps "" "owner" desc).
  intros u. reflexivity.
Defined.

Example chunked_progress :
  uploadingProgress
    (snd (snd (uploadToS3 openConfig 0 iconFile chunked (freshIcon, []))))
  = [0; 50; 100]
  /\ uploadToS3 openConfig 0 iconFile chunked (freshIcon, [])
     = uploadToS3 openConfig 0 iconFile accepted (freshIcon, []).
Proof. split; reflexivity. Qed.
